(** * IAM rules scanner: ancestor binding resolution and violation flattening

    Shallow embedding of
    [google/cloud/forseti/scanner/scanners/iam_rules_scanner.py].

    Python objects that the scanner mutates in place (the binding objects,
    through [merge_members], and the binding lists, through [append]) live in an
    explicit store: binding objects are addressed by [ref], and every policy
    tuple owns one list of such addresses.  *)

From stdpp Require Import gmap strings list.

Open Scope string_scope.
Open Scope list_scope.

(** ** Python strings *)

Module PyStr.

(** [s.startswith(sub)] *)
Fixpoint startswith (s sub : string) {struct sub} : bool :=
  match sub, s with
  | EmptyString, _ => true
  | String _ _, EmptyString => false
  | String a sub', String b s' =>
      if Ascii.eqb a b then startswith s' sub' else false
  end.

(** [s.find(sub)] searched from offset [i]: the lowest index at which [sub]
    occurs in [s], and [-1] when it does not occur. *)
Fixpoint find_from (i : Z) (s sub : string) : Z :=
  if startswith s sub then i
  else match s with
       | EmptyString => -1
       | String _ s' => find_from (i + 1) s' sub
       end%Z.

Definition find (s sub : string) : Z := find_from 0 s sub.

(** Truth value of a Python integer used as a condition. *)
Definition truthy (z : Z) : bool := negb (z =? 0)%Z.

(** ['%s:%s' % (a, b)] on two strings. *)
Definition format_colon (a b : string) : string := a +:+ ":" +:+ b.


(** Number of occurrences of the character [c] in [s]. *)
Fixpoint count_char (c : Ascii.ascii) (s : string) : nat :=
  match s with
  | EmptyString => 0
  | String a s' => (if Ascii.eqb a c then 1 else 0) + count_char c s'
  end.

End PyStr.

(** ** Data model *)

(** Members of a binding, as the scanner reads them: [member.type] and
    [member.name]. *)
Module IamPolicyMember.
Record t := { type : string; name : string }.

#[global] Instance member_eq_dec : EqDecision t.
Proof. solve_decision. Defined.

#[global] Instance member_countable : Countable t.
Proof.
  refine (inj_countable' (λ m, (type m, name m))
                         (λ p, {| type := p.1; name := p.2 |}) _).
  by intros [].
Defined.
End IamPolicyMember.

Abbreviation Member := IamPolicyMember.t.

(** Modelled from the spec: the class [iam_policy.IamPolicyBinding], whose
    source is not part of this file's module.  A binding is a role name and a
    set of members; two bindings are equal when they have the same role and the
    same member set; [merge_members] is the in-place union of member sets. *)
Record IamPolicyBinding := {
  role_name : string;
  members : gset Member
}.

#[global] Instance IamPolicyBinding_eq_dec : EqDecision IamPolicyBinding.
Proof. solve_decision. Defined.

(** Modelled from the spec: [self.merge_members(other)], the new value of the
    object [self] ("member-set union, not replacement"). *)
Definition merge_members (self other : IamPolicyBinding) : IamPolicyBinding :=
  {| role_name := role_name self; members := members self ∪ members other |}.

(** The gcp types [Bucket], [Folder], [Organization] and [Project]: the scanner
    reads [resource.type] and [resource.full_name]. *)
Module Resource.
Record t := { type : string; name : string; full_name : string; data : string }.

#[global] Instance resource_eq_dec : EqDecision t.
Proof. solve_decision. Defined.
End Resource.

Abbreviation Resource := Resource.t.

(** A policy record of the data model: [policy.parent.type],
    [policy.parent.name], [policy.parent.full_name] and [policy.data]. *)
Module DataModel.
Record parent_t := { type : string; name : string; full_name : string }.
Record policy_t := { parent : parent_t; data : string }.

#[global] Instance parent_eq_dec : EqDecision parent_t.
Proof. solve_decision. Defined.
#[global] Instance policy_eq_dec : EqDecision policy_t.
Proof. solve_decision. Defined.
End DataModel.

(** Address of a binding object. *)
Abbreviation ref := nat.

(** One entry of [policy_data]: [(resource, policy, bindings)].  [bindings] is
    the tuple's own list object, holding addresses of binding objects. *)
Record PolicyTuple := {
  resource : Resource;
  policy : DataModel.policy_t;
  bindings : list ref
}.

(** The store: every binding object by address, and [policy_data] with the
    current contents of every tuple's list. *)
Record Store := {
  heap : list IamPolicyBinding;
  policy_data : list PolicyTuple
}.

(** Positions of the elements of [l] that satisfy [p], in list order. *)
Definition positions {A} (p : A → bool) (l : list A) : list nat :=
  omap (λ ix, if p ix.2 then Some ix.1 else None) (imap pair l).

(** ** The ancestor resolver *)

Definition storage_iam_roles : list string :=
  [ "roles/storage.admin";
    "roles/storage.objectViewer";
    "roles/storage.objectCreator";
    "roles/storage.objectAdmin" ].

(** Current contents of the list of tuple [i]. *)
Definition bindings_at (st : Store) (i : nat) : list ref :=
  from_option bindings [] (policy_data st !! i).

(** [ancestor_binding in bucket_bindings]: some element of the list is equal
    to the binding. *)
Definition binding_in (h : list IamPolicyBinding) (b : IamPolicyBinding)
    (bl : list ref) : bool :=
  existsb (λ r, bool_decide (h !! r = Some b)) bl.

(** The [for bucket_binding in bucket_bindings] loop up to its [break]: the
    first binding of the list that has the role. *)
Definition first_with_role (h : list IamPolicyBinding) (role : string)
    (bl : list ref) : option ref :=
  snd <$> list_find (λ r, role_name <$> h !! r = Some role) bl.

(** [bucket_bindings.append(ancestor_binding)] on the list of a tuple. *)
Definition append_binding (r : ref) (t : PolicyTuple) : PolicyTuple :=
  {| resource := resource t; policy := policy t;
     bindings := bindings t ++ [r] |}.

(** Body of the loop over [ancestor_bindings] (source lines 84-95), for the
    bucket at position [bi] and the ancestor binding object at address [r]. *)
Definition add_ancestor_binding (bi : nat) (st : Store) (r : ref) : Store :=
  match heap st !! r with
  | None => st
  | Some ancestor_binding =>
      if bool_decide (role_name ancestor_binding ∉ storage_iam_roles) then st
      else if binding_in (heap st) ancestor_binding (bindings_at st bi) then st
      else
        match first_with_role (heap st) (role_name ancestor_binding)
                              (bindings_at st bi) with
        | Some r' =>
            {| heap := alter (λ bucket_binding,
                                merge_members bucket_binding ancestor_binding)
                             r' (heap st);
               policy_data := policy_data st |}
        | None =>
            {| heap := heap st;
               policy_data := alter (append_binding r) bi (policy_data st) |}
        end
  end.

(** [for ancestor_binding in ancestor_bindings], where [ancestor_bindings] is
    the list of tuple [j].  That list is not the bucket's list (their tuples
    have different full names), so it does not grow while it is traversed. *)
Definition add_ancestor_bindings (bi : nat) (st : Store) (j : nat) : Store :=
  foldl (add_ancestor_binding bi) st (bindings_at st j).

(** The two [continue] tests of source lines 76-79: the tuple of [resource]
    contributes its list to [all_ancestor_bindings] of [bucket]. *)
Definition is_ancestor (bucket resource : Resource) : bool :=
  if bool_decide (Resource.full_name resource = Resource.full_name bucket)
  then false
  else if PyStr.truthy (PyStr.find (Resource.full_name bucket)
                                   (Resource.full_name resource))
  then false
  else true.

(** [all_ancestor_bindings], as the positions of the tuples whose lists it
    holds. *)
Definition all_ancestor_bindings (pd : list PolicyTuple) (bucket : Resource)
    : list nat :=
  positions (λ t, is_ancestor bucket (resource t)) pd.

(** [bucket_data], as the positions of the bucket tuples. *)
Definition bucket_data (pd : list PolicyTuple) : list nat :=
  positions (λ t, bool_decide (Resource.type (resource t) = "bucket")) pd.

(** One iteration of [for bucket, bucket_bindings in bucket_data]. *)
Definition process_bucket (st : Store) (bi : nat) : Store :=
  match policy_data st !! bi with
  | None => st
  | Some t =>
      foldl (add_ancestor_bindings bi) st
            (all_ancestor_bindings (policy_data st) (resource t))
  end.

Definition _add_bucket_ancestor_bindings (st : Store) : Store :=
  foldl process_bucket st (bucket_data (policy_data st)).

(** The bindings of tuple [i] as values, in list order. *)
Definition tuple_bindings (st : Store) (i : nat) : list IamPolicyBinding :=
  omap (λ r, heap st !! r) (bindings_at st i).

(** ** Violations and their flattening *)

(** A rule violation, as the rules engine returns it; the scanner reads the
    attributes below. *)
Module RuleViolation.
Record t := {
  resource_id : string;
  resource_type : string;
  full_name : string;
  rule_index : Z;
  rule_name : string;
  violation_type : string;
  members : list Member;
  role : string;
  inventory_data : string
}.
End RuleViolation.

(** The dictionaries that [_flatten_violations] yields. *)
Module Flat.
Record violation_data_t := {
  vd_full_name : string;
  vd_role : string;
  vd_member : string
}.

Record t := {
  resource_id : string;
  resource_type : string;
  full_name : string;
  rule_index : Z;
  rule_name : string;
  violation_type : string;
  violation_data : violation_data_t;
  inventory_data : string
}.
End Flat.

(** Body of the inner loop of [_flatten_violations]: the dictionary yielded
    for one member of one violation. *)
Definition flatten_member (violation : RuleViolation.t) (member : Member)
    : Flat.t :=
  let violation_data :=
    {| Flat.vd_full_name := RuleViolation.full_name violation;
       Flat.vd_role := RuleViolation.role violation;
       Flat.vd_member :=
         PyStr.format_colon (IamPolicyMember.type member)
                            (IamPolicyMember.name member) |} in
  {| Flat.resource_id := RuleViolation.resource_id violation;
     Flat.resource_type := RuleViolation.resource_type violation;
     Flat.full_name := RuleViolation.full_name violation;
     Flat.rule_index := RuleViolation.rule_index violation;
     Flat.rule_name := RuleViolation.rule_name violation;
     Flat.violation_type := RuleViolation.violation_type violation;
     Flat.violation_data := violation_data;
     Flat.inventory_data := RuleViolation.inventory_data violation |}.

(** [for member in violation.members: yield ...] *)
Fixpoint flatten_members (violation : RuleViolation.t) (ms : list Member)
    : list Flat.t :=
  match ms with
  | [] => []
  | member :: ms' => flatten_member violation member
                     :: flatten_members violation ms'
  end.

(** The generator [_flatten_violations], as the list of what it yields. *)
Fixpoint _flatten_violations (violations : list RuleViolation.t)
    : list Flat.t :=
  match violations with
  | [] => []
  | violation :: violations' =>
      flatten_members violation (RuleViolation.members violation)
      ++ _flatten_violations violations'
  end.

(** The (violation, member) pairs of a list of violations, in order. *)
Definition violation_members (violations : list RuleViolation.t)
    : list (RuleViolation.t * Member) :=
  violations ≫= λ v, pair v <$> RuleViolation.members v.

(** ** The scanner run *)

(** Modelled from the spec: the constructors of the gcp types [Bucket],
    [Project], [Folder] and [Organization], whose classes are not part of this
    file's module; each builds a resource of its own kind. *)
Definition Bucket (name full_name data : string) : Resource :=
  {| Resource.type := "bucket"; Resource.name := name;
     Resource.full_name := full_name; Resource.data := data |}.
Definition Project (name full_name data : string) : Resource :=
  {| Resource.type := "project"; Resource.name := name;
     Resource.full_name := full_name; Resource.data := data |}.
Definition Folder (name full_name data : string) : Resource :=
  {| Resource.type := "folder"; Resource.name := name;
     Resource.full_name := full_name; Resource.data := data |}.
Definition Organization (name full_name data : string) : Resource :=
  {| Resource.type := "organization"; Resource.name := name;
     Resource.full_name := full_name; Resource.data := data |}.

(** The four counters of [_retrieve], returned as [resource_counts]. *)
Record ResourceCounts := {
  org_iam_policy_counter : nat;
  folder_iam_policy_counter : nat;
  project_iam_policy_counter : nat;
  bucket_iam_policy_counter : nat
}.

(** What a run does to the outside: log lines, calls of the rules engine and
    the hand-over of the flattened violations to the sinks. *)
Inductive Event :=
| LogWarn (msg : string)
| LogInfo (msg : string)
| LogDebug (resource : Resource) (policy : DataModel.policy_t)
| EngineCall (resource : Resource) (policy : DataModel.policy_t)
             (policy_bindings : list IamPolicyBinding)
| OutputResults (all_violations : list Flat.t)
                (resource_counts : ResourceCounts).

(** A computation either returns or leaves through [sys.exit]. *)
Inductive Outcome (A : Type) :=
| Returned (a : A)
| SystemExit (code : Z).
Arguments Returned {A} a.
Arguments SystemExit {A} code.

(** Computations of the scanner: they extend the trace of events and return or
    exit. *)
Definition Scan (A : Type) : Type := list Event → Outcome A * list Event.

Definition scan_ret {A} (a : A) : Scan A := λ tr, (Returned a, tr).

Definition scan_bind {A B} (m : Scan A) (k : A → Scan B) : Scan B :=
  λ tr, match m tr with
        | (Returned a, tr') => k a tr'
        | (SystemExit code, tr') => (SystemExit code, tr')
        end.

Definition emit (e : Event) : Scan unit := λ tr, (Returned tt, tr ++ [e]).

Definition sys_exit {A} (code : Z) : Scan A := λ tr, (SystemExit code, tr).

Declare Scope scan_scope.
Delimit Scope scan_scope with scan.
Notation "x <~ m ;; k" := (scan_bind m (λ x, k))
  (at level 20, m at level 99, k at level 200) : scan_scope.
Notation "m ;;; k" := (scan_bind m (λ _, k))
  (at level 100, k at level 200, right associativity) : scan_scope.

Section Scanner.

(** [json.loads(policy.data).get('bindings', [])] passed through
    [IamPolicyBinding.create_from], with the entries that fail to parse
    dropped. *)
Variable create_bindings : string → list IamPolicyBinding.

(** [self.rules_engine.find_policy_violations]. *)
Variable find_policy_violations :
  Resource → DataModel.policy_t → list IamPolicyBinding → list RuleViolation.t.

Definition supported_iam_types : list string :=
  [ "organization"; "folder"; "project"; "bucket" ].

Definition no_counts : ResourceCounts :=
  {| org_iam_policy_counter := 0; folder_iam_policy_counter := 0;
     project_iam_policy_counter := 0; bucket_iam_policy_counter := 0 |}.

(** Body of [for policy in data_access.scanner_iter(session, 'iam_policy')].
    The binding objects created for the policy are new objects of the heap, and
    [policy_bindings] is a new list holding them. *)
Definition retrieve_policy (acc : Store * ResourceCounts)
    (policy : DataModel.policy_t) : Store * ResourceCounts :=
  let parent := DataModel.parent policy in
  if bool_decide (DataModel.type parent ∉ supported_iam_types) then acc
  else
    let created := create_bindings (DataModel.data policy) in
    let policy_bindings := seq (length (heap acc.1)) (length created) in
    let h := heap acc.1 ++ created in
    let entry (r : Resource) : PolicyTuple :=
      {| resource := r; policy := policy; bindings := policy_bindings |} in
    let args (mk : string → string → string → Resource) : Resource :=
      mk (DataModel.name parent) (DataModel.full_name parent)
         (DataModel.data policy) in
    let c := acc.2 in
    let '(pd1, c1) :=
      if bool_decide (DataModel.type parent = "bucket")
      then (policy_data acc.1 ++ [entry (args Bucket)],
            {| org_iam_policy_counter := org_iam_policy_counter c;
               folder_iam_policy_counter := folder_iam_policy_counter c;
               project_iam_policy_counter := project_iam_policy_counter c;
               bucket_iam_policy_counter := bucket_iam_policy_counter c + 1 |})
      else (policy_data acc.1, c) in
    let '(pd2, c2) :=
      if bool_decide (DataModel.type parent = "project")
      then (pd1 ++ [entry (args Project)],
            {| org_iam_policy_counter := org_iam_policy_counter c1;
               folder_iam_policy_counter := folder_iam_policy_counter c1;
               project_iam_policy_counter := project_iam_policy_counter c1 + 1;
               bucket_iam_policy_counter := bucket_iam_policy_counter c1 |})
      else if bool_decide (DataModel.type parent = "folder")
      then (pd1 ++ [entry (args Folder)],
            {| org_iam_policy_counter := org_iam_policy_counter c1;
               folder_iam_policy_counter := folder_iam_policy_counter c1 + 1;
               project_iam_policy_counter := project_iam_policy_counter c1;
               bucket_iam_policy_counter := bucket_iam_policy_counter c1 |})
      else if bool_decide (DataModel.type parent = "organization")
      then (pd1 ++ [entry (args Organization)],
            {| org_iam_policy_counter := org_iam_policy_counter c1 + 1;
               folder_iam_policy_counter := folder_iam_policy_counter c1;
               project_iam_policy_counter := project_iam_policy_counter c1;
               bucket_iam_policy_counter := bucket_iam_policy_counter c1 |})
      else (pd1, c1) in
    ({| heap := h; policy_data := pd2 |}, c2).

(** The loop of [_retrieve] over the policies that the data access yields. *)
Definition retrieved (policies : list DataModel.policy_t)
    : Store * ResourceCounts :=
  foldl retrieve_policy ({| heap := []; policy_data := [] |}, no_counts)
        policies.

Definition _retrieve (policies : list DataModel.policy_t)
    : Scan (Store * ResourceCounts) :=
  match policy_data (retrieved policies).1 with
  | [] => (emit (LogWarn "No policies found. Exiting.") ;;; sys_exit 1)%scan
  | _ :: _ => scan_ret (retrieved policies)
  end.

(** The loop of [_find_violations] over [policies], with the violations
    collected so far. *)
Fixpoint find_violations_loop (h : list IamPolicyBinding)
    (policies : list PolicyTuple) (all_violations : list RuleViolation.t)
    : Scan (list RuleViolation.t) :=
  match policies with
  | [] => scan_ret all_violations
  | t :: policies' =>
      let policy_bindings := omap (λ r, h !! r) (bindings t) in
      (emit (LogDebug (resource t) (policy t)) ;;;
       emit (EngineCall (resource t) (policy t) policy_bindings) ;;;
       find_violations_loop h policies'
         (all_violations
          ++ find_policy_violations (resource t) (policy t) policy_bindings)
      )%scan
  end.

Definition _find_violations (st : Store) : Scan (list RuleViolation.t) :=
  (emit (LogInfo "Finding IAM policy violations...") ;;;
   find_violations_loop (heap st) (policy_data st) [])%scan.

(** [_output_results]: the violations are flattened and handed, with the
    resource counts, to the sinks. *)
Definition _output_results (all_violations : list RuleViolation.t)
    (resource_counts : ResourceCounts) : Scan unit :=
  emit (OutputResults (_flatten_violations all_violations) resource_counts).

Definition run (policies : list DataModel.policy_t) : Scan unit :=
  (retrieved_data <~ _retrieve policies ;;
   let st := _add_bucket_ancestor_bindings retrieved_data.1 in
   all_violations <~ _find_violations st ;;
   _output_results all_violations retrieved_data.2)%scan.

End Scanner.

(** ** Sample policy data

    Stores as [_retrieve] builds them: every binding object is held by exactly
    one list, and every tuple has its own list. *)

Module Sample.

Definition user (n : string) : Member :=
  {| IamPolicyMember.type := "user"; IamPolicyMember.name := n |}.

Definition alice : Member := user "alice".
Definition bob : Member := user "bob".
Definition carol : Member := user "carol".

Definition admin (ms : gset Member) : IamPolicyBinding :=
  {| role_name := "roles/storage.admin"; members := ms |}.

Definition viewer (ms : gset Member) : IamPolicyBinding :=
  {| role_name := "roles/storage.objectViewer"; members := ms |}.

Definition owner (ms : gset Member) : IamPolicyBinding :=
  {| role_name := "roles/owner"; members := ms |}.

Definition record_of (kind full_name : string) : DataModel.policy_t :=
  {| DataModel.parent :=
       {| DataModel.type := kind; DataModel.name := full_name;
          DataModel.full_name := full_name |};
     DataModel.data := "" |}.

Definition entry (mk : string → string → string → Resource)
    (kind full_name : string) (bl : list ref) : PolicyTuple :=
  {| resource := mk full_name full_name "";
     policy := record_of kind full_name;
     bindings := bl |}.

Definition organization := entry Organization "organization".
Definition project := entry Project "project".
Definition bucket := entry Bucket "bucket".

(** The end-to-end example of the specification: an organization without
    bindings, a project granting storage.admin to alice, and a bucket
    granting storage.objectViewer to bob. *)
Definition end_to_end : Store :=
  {| heap := [admin {[alice]}; viewer {[bob]}];
     policy_data := [organization "o1" []; project "o1/p1" [0];
                     bucket "o1/p1/b1" [1]] |}.

(** A bucket with its own storage.admin binding under a project that grants
    the same role to someone else. *)
Definition same_role : Store :=
  {| heap := [admin {[alice]}; admin {[bob]}; owner {[carol]}];
     policy_data := [project "o1/p1/" [0; 2]; bucket "o1/p1/b1/" [1]] |}.

(** An organization and a project that both grant storage.admin, a bucket of
    the project and a bucket directly under the organization; the
    organization comes first. *)
Definition org_first : Store :=
  {| heap := [admin {[bob]}; admin {[alice]}];
     policy_data := [organization "o/" [0]; project "o/p/" [1];
                     bucket "o/p/b/" []; bucket "o/b2/" []] |}.

(** The same tuples with the project before the organization. *)
Definition project_first : Store :=
  {| heap := [admin {[bob]}; admin {[alice]}];
     policy_data := [project "o/p/" [1]; organization "o/" [0];
                     bucket "o/p/b/" []; bucket "o/b2/" []] |}.

(** A bucket with its own storage.admin binding under the organization, and
    an empty bucket under a project of the organization. *)
Definition two_buckets : Store :=
  {| heap := [admin {[alice]}; admin {[carol]}; admin {[bob]}];
     policy_data := [organization "o/" [0]; project "o/p/" [1];
                     bucket "o/b/" [2]; bucket "o/p/c/" []] |}.

(** A tuple whose full name is the empty string, and a bucket. *)
Definition empty_name : Store :=
  {| heap := [admin {[alice]}];
     policy_data := [organization "" [0]; bucket "o/b/" []] |}.

(** A bucket whose full name is the empty string, next to an organization. *)
Definition empty_bucket : Store :=
  {| heap := [admin {[alice]}; viewer {[bob]}];
     policy_data := [organization "o/" [0]; bucket "" [1]] |}.

Definition violation (ms : list Member) : RuleViolation.t :=
  {| RuleViolation.resource_id := "b1";
     RuleViolation.resource_type := "bucket";
     RuleViolation.full_name := "o1/p1/b1";
     RuleViolation.rule_index := 0;
     RuleViolation.rule_name := "no public buckets";
     RuleViolation.violation_type := "ADDED";
     RuleViolation.members := ms;
     RuleViolation.role := "roles/storage.admin";
     RuleViolation.inventory_data := "" |}.

End Sample.

(** ** Observations on stores *)

(** Every binding object of [h] is still there in [h'], with its role and at
    least its members. *)
Definition heap_grows (h h' : list IamPolicyBinding) : Prop :=
  length h' = length h ∧
  ∀ r b, h !! r = Some b →
    ∃ b', h' !! r = Some b' ∧ role_name b' = role_name b
          ∧ members b ⊆ members b'.

(** Every tuple of [pd] is still there in [pd'], and its list starts with
    what it held. *)
Definition lists_grow (pd pd' : list PolicyTuple) : Prop :=
  length pd' = length pd ∧
  ∀ i t, pd !! i = Some t →
    ∃ t', pd' !! i = Some t' ∧ resource t' = resource t
          ∧ policy t' = policy t ∧ bindings t `prefix_of` bindings t'.

Definition store_grows (st st' : Store) : Prop :=
  heap_grows (heap st) (heap st')
  ∧ lists_grow (policy_data st) (policy_data st').

(** The tuples of [pd'] are those of [pd], up to the contents of their
    lists. *)
Definition same_resources (pd pd' : list PolicyTuple) : Prop :=
  resource <$> pd' = resource <$> pd.

(** No list of the store holds two bindings with the same role name. *)
Definition roles_unique (st : Store) : Prop :=
  ∀ i, NoDup (role_name <$> tuple_bindings st i).

(** The list of tuple [bi] holds a binding with the role of [ab] and at least
    the members of [ab]. *)
Definition covers (st : Store) (bi : nat) (ab : IamPolicyBinding) : Prop :=
  ∃ (r0 : ref) b0,
    r0 ∈ bindings_at st bi ∧ heap st !! r0 = Some b0
    ∧ role_name b0 = role_name ab ∧ members ab ⊆ members b0.

(** Number of tuples of a kind. *)
Definition count_kind (kind : string) (pd : list PolicyTuple) : nat :=
  length (filter (λ t, Resource.type (resource t) = kind) pd).

(** The policy is attached to a resource of a supported kind. *)
Definition supported (p : DataModel.policy_t) : Prop :=
  DataModel.type (DataModel.parent p) ∈ supported_iam_types.

#[global] Instance supported_dec p : Decision (supported p).
Proof. unfold supported. apply _. Defined.

(** The resource that [_retrieve] builds for a policy of a supported kind. *)
Definition resource_of (p : DataModel.policy_t) : Resource :=
  {| Resource.type := DataModel.type (DataModel.parent p);
     Resource.name := DataModel.name (DataModel.parent p);
     Resource.full_name := DataModel.full_name (DataModel.parent p);
     Resource.data := DataModel.data p |}.

(** The bindings of a tuple as the rules engine receives them. *)
Definition bindings_of (h : list IamPolicyBinding) (t : PolicyTuple)
    : list IamPolicyBinding :=
  omap (λ r, h !! r) (bindings t).

(** The events of the loop of [_find_violations] over [pd]: for every tuple
    a debug line and a call of the rules engine. *)
Definition engine_events (h : list IamPolicyBinding) (pd : list PolicyTuple)
    : list Event :=
  pd ≫= λ t, [LogDebug (resource t) (policy t);
              EngineCall (resource t) (policy t) (bindings_of h t)].

(** The violations that the rules engine [find] returns for the tuples of
    [pd], in the order of the tuples. *)
Definition engine_results
    (find : Resource → DataModel.policy_t → list IamPolicyBinding
            → list RuleViolation.t)
    (h : list IamPolicyBinding) (pd : list PolicyTuple)
    : list RuleViolation.t :=
  pd ≫= λ t, find (resource t) (policy t) (bindings_of h t).

(** The ":" of a flattened member. *)
Definition colon : Ascii.ascii := Eval cbv in Ascii.ascii_of_nat 58.

(** * Properties *)

(** ** Strings *)

Module PyStrFacts.
Import PyStr.

Lemma startswith_spec s sub :
  startswith s sub = true ↔ ∃ rest, s = sub +:+ rest.
Proof.
  revert s. induction sub as [|a sub IH]; intros s; simpl.
  - split; [intros _; by exists s | done].
  - destruct s as [|b s]; simpl.
    + split; [done | intros [rest Hr]; discriminate].
    + destruct (Ascii.eqb_spec a b) as [->|Hne].
      * rewrite IH. split; intros [rest Hr]; exists rest.
        -- by rewrite Hr.
        -- by injection Hr.
      * split; [done | intros [rest Hr]; injection Hr; congruence].
Qed.

Lemma find_from_range i s sub :
  find_from i s sub = (-1)%Z ∨ (i ≤ find_from i s sub)%Z.
Proof.
  revert i. induction s as [|b s IH]; intros i; simpl.
  - destruct (startswith "" sub); [right; lia | by left].
  - destruct (startswith (String b s) sub); [right; lia |].
    destruct (IH (i + 1)%Z) as [->|Hle]; [by left | right; lia].
Qed.

Lemma find_from_hit i s sub :
  (0 ≤ i)%Z → find_from i s sub = i ↔ startswith s sub = true.
Proof.
  intros Hi. destruct s as [|b s]; simpl.
  - destruct (startswith "" sub); [done | split; [lia | done]].
  - destruct (startswith (String b s) sub); [done |].
    destruct (find_from_range (i + 1) s sub) as [->|Hle];
      (split; [lia | done]).
Qed.

(** [s.find(sub) == 0] exactly when [s] starts with [sub]. *)
Lemma find_zero s sub : find s sub = 0%Z ↔ ∃ rest, s = sub +:+ rest.
Proof.
  unfold find. rewrite (find_from_hit 0 s sub) by lia.
  apply startswith_spec.
Qed.

Lemma app_nil s : "" +:+ s = s.
Proof. reflexivity. Qed.

Lemma app_cons a s t : String a s +:+ t = String a (s +:+ t).
Proof. reflexivity. Qed.



Lemma app_empty_r s : s +:+ "" = s.
Proof. induction s as [|a s IH]; [done | by rewrite app_cons, IH]. Qed.

Lemma app_assoc s t u : (s +:+ t) +:+ u = s +:+ (t +:+ u).
Proof. induction s as [|a s IH]; [done | by rewrite !app_cons, IH]. Qed.

Lemma app_length s t :
  String.length (s +:+ t) = String.length s + String.length t.
Proof.
  induction s as [|a s IH]; [done | rewrite app_cons; simpl; by rewrite IH].
Qed.

(** A string that is extended to itself is extended by nothing. *)
Lemma app_self_inv s t : s = s +:+ t → t = "".
Proof.
  intros H. assert (Hl := f_equal String.length H).
  rewrite app_length in Hl. destruct t; [done | simpl in Hl; lia].
Qed.

(** Two strings that start with each other are equal. *)
Lemma prefix_antisym s t r1 r2 : s = t +:+ r1 → t = s +:+ r2 → s = t.
Proof.
  intros H1 H2. rewrite H2, app_assoc in H1.
  apply app_self_inv in H1. destruct r2; [|done].
  by rewrite app_empty_r in H2.
Qed.



End PyStrFacts.

(** ** Positions and folds *)

Lemma elem_of_positions {A} (p : A → bool) (l : list A) (i : nat) :
  i ∈ positions p l ↔ ∃ x, l !! i = Some x ∧ p x = true.
Proof.
  unfold positions. rewrite list_elem_of_omap. split.
  - intros [[j x] [Hin Hp]].
    apply elem_of_lookup_imap in Hin as (k & y & Heq & Hl).
    simplify_eq. simpl in Hp. destruct (p y) eqn:E; simplify_eq. eauto.
  - intros (x & Hl & Hp). exists (i, x). split.
    + by apply (elem_of_lookup_imap_2 pair).
    + simpl. by rewrite Hp.
Qed.

Lemma positions_none {A} (p : A → bool) (l : list A) :
  (∀ x, x ∈ l → p x = false) → positions p l = [].
Proof.
  intros Hp. destruct (positions p l) as [|i more] eqn:E; [done |].
  assert (i ∈ positions p l) as Hi by (rewrite E; left).
  apply elem_of_positions in Hi as (x & Hl & Hx).
  rewrite (Hp x) in Hx; [done |]. by eapply list_elem_of_lookup_2.
Qed.

(** A property kept by every step of a loop is kept by the loop. *)
Lemma foldl_preserves {S B} (P : S → Prop) (f : S → B → S) (l : list B) s :
  (∀ s x, P s → P (f s x)) → P s → P (foldl f s l).
Proof. intros Hf. revert s. induction l; simpl; auto. Qed.

(** ** Candidate ancestors *)

Lemma is_ancestor_spec (bucket resource : Resource) :
  is_ancestor bucket resource = true ↔
    Resource.full_name resource ≠ Resource.full_name bucket ∧
    ∃ rest, Resource.full_name bucket = Resource.full_name resource +:+ rest.
Proof.
  unfold is_ancestor, PyStr.truthy. rewrite <- PyStrFacts.find_zero.
  case_bool_decide as Hn.
  - split; [done | by intros [? _]].
  - destruct (Z.eqb_spec (PyStr.find (Resource.full_name bucket)
                                     (Resource.full_name resource)) 0)
      as [Hz|Hz]; simpl; split; try done. by intros [_ ?].
Qed.

(** A resource below the bucket is not a candidate ancestor of it. *)
Lemma descendant_not_ancestor (bucket resource : Resource) rest :
  Resource.full_name resource = Resource.full_name bucket +:+ rest →
  is_ancestor bucket resource = false.
Proof.
  intros Hd. apply not_true_is_false.
  intros [Hne [rest' Hp]]%is_ancestor_spec.
  apply Hne. by eapply PyStrFacts.prefix_antisym.
Qed.


(** ** One ancestor binding *)

Implicit Types (h : list IamPolicyBinding) (pd : list PolicyTuple).
Implicit Types (st : Store) (r bi : nat) (ab bb b : IamPolicyBinding).
Implicit Types (bl : list ref) (t : PolicyTuple).

Lemma binding_in_spec h b bl :
  binding_in h b bl = true ↔ ∃ r, r ∈ bl ∧ h !! r = Some b.
Proof.
  unfold binding_in. rewrite existsb_exists. split.
  - intros (r & Hin & Hb). exists r. split; [by apply list_elem_of_In |].
    by apply bool_decide_eq_true in Hb.
  - intros (r & Hin & Hb). exists r. split; [by apply list_elem_of_In |].
    by apply bool_decide_eq_true.
Qed.

Lemma first_with_role_Some h role bl r' :
  first_with_role h role bl = Some r' ↔
    ∃ i, bl !! i = Some r' ∧ role_name <$> h !! r' = Some role
         ∧ ∀ j y, bl !! j = Some y → j < i → role_name <$> h !! y ≠ Some role.
Proof.
  unfold first_with_role. rewrite fmap_Some. split.
  - intros [[i x] [Hf ->]]. apply list_find_Some in Hf. by exists i.
  - intros (i & Hi). exists (i, r'). split; [|done].
    by apply list_find_Some.
Qed.

Lemma first_with_role_None h role bl :
  first_with_role h role bl = None ↔
    ∀ r, r ∈ bl → role_name <$> h !! r ≠ Some role.
Proof.
  unfold first_with_role. rewrite fmap_None, list_find_None, Forall_forall.
  done.
Qed.

(** The three outcomes of the loop body. *)
Lemma add_ancestor_binding_cases bi st r :
  add_ancestor_binding bi st r = st
  ∨ (∃ ab r',
       heap st !! r = Some ab
       ∧ role_name ab ∈ storage_iam_roles
       ∧ binding_in (heap st) ab (bindings_at st bi) = false
       ∧ first_with_role (heap st) (role_name ab) (bindings_at st bi)
         = Some r'
       ∧ add_ancestor_binding bi st r
         = {| heap := alter (λ bb, merge_members bb ab) r' (heap st);
              policy_data := policy_data st |})
  ∨ (∃ ab,
       heap st !! r = Some ab
       ∧ role_name ab ∈ storage_iam_roles
       ∧ binding_in (heap st) ab (bindings_at st bi) = false
       ∧ first_with_role (heap st) (role_name ab) (bindings_at st bi) = None
       ∧ add_ancestor_binding bi st r
         = {| heap := heap st;
              policy_data := alter (append_binding r) bi (policy_data st) |}).
Proof.
  unfold add_ancestor_binding.
  destruct (heap st !! r) as [ab|] eqn:Hr; [|by left].
  case_bool_decide as Hrole; [by left |].
  destruct (binding_in _ _ _) eqn:Hin; [by left |].
  destruct (first_with_role _ _ _) as [r'|] eqn:Hf.
  - right; left. by exists ab, r'.
  - right; right. by exists ab.
Qed.

(** Merging members keeps the role of every object. *)
Lemma lookup_merge_role h (r' : nat) ab r :
  role_name <$> alter (λ bb, merge_members bb ab) r' h !! r
  = role_name <$> h !! r.
Proof.
  destruct (decide (r' = r)) as [->|Hne].
  - rewrite list_lookup_alter_eq. by destruct (h !! r).
  - by rewrite list_lookup_alter_ne.
Qed.

Lemma heap_grows_refl h : heap_grows h h.
Proof. split; [done |]. intros r b Hb. exists b. set_solver. Qed.

Lemma heap_grows_trans h1 h2 h3 :
  heap_grows h1 h2 → heap_grows h2 h3 → heap_grows h1 h3.
Proof.
  intros [Hl1 H1] [Hl2 H2]. split; [congruence |].
  intros r b Hb. destruct (H1 r b Hb) as (b2 & Hb2 & Hr2 & Hm2).
  destruct (H2 r b2 Hb2) as (b3 & Hb3 & Hr3 & Hm3).
  exists b3. split_and!; [done | congruence | set_solver].
Qed.

Lemma heap_grows_merge h (r' : nat) ab :
  heap_grows h (alter (λ bb, merge_members bb ab) r' h).
Proof.
  split; [by rewrite length_alter |]. intros r b Hb.
  destruct (decide (r' = r)) as [->|Hne].
  - rewrite list_lookup_alter_eq, Hb. simpl.
    exists (merge_members b ab). split_and!; [done | done |].
    simpl. set_solver.
  - rewrite list_lookup_alter_ne by done. exists b. set_solver.
Qed.

Lemma lists_grow_refl pd : lists_grow pd pd.
Proof. split; [done |]. intros i t Ht. by exists t. Qed.

Lemma lists_grow_trans pd1 pd2 pd3 :
  lists_grow pd1 pd2 → lists_grow pd2 pd3 → lists_grow pd1 pd3.
Proof.
  intros [Hl1 H1] [Hl2 H2]. split; [congruence |].
  intros i t Ht. destruct (H1 i t Ht) as (t2 & Ht2 & Hr2 & Hp2 & Hb2).
  destruct (H2 i t2 Ht2) as (t3 & Ht3 & Hr3 & Hp3 & Hb3).
  exists t3. split_and!; [done | congruence | congruence | by etrans].
Qed.

Lemma lists_grow_append pd bi r :
  lists_grow pd (alter (append_binding r) bi pd).
Proof.
  split; [by rewrite length_alter |]. intros i t Ht.
  destruct (decide (bi = i)) as [->|Hne].
  - rewrite list_lookup_alter_eq, Ht. simpl.
    exists (append_binding r t). split_and!; try done.
    simpl. by apply prefix_app_r.
  - rewrite list_lookup_alter_ne by done. by exists t.
Qed.

Lemma store_grows_refl st : store_grows st st.
Proof. split; [apply heap_grows_refl | apply lists_grow_refl]. Qed.

Lemma store_grows_trans st1 st2 st3 :
  store_grows st1 st2 → store_grows st2 st3 → store_grows st1 st3.
Proof.
  intros [Hh1 Hl1] [Hh2 Hl2].
  split; [by eapply heap_grows_trans | by eapply lists_grow_trans].
Qed.

Lemma add_ancestor_binding_grows bi st r :
  store_grows st (add_ancestor_binding bi st r).
Proof.
  destruct (add_ancestor_binding_cases bi st r)
    as [-> | [(ab & r' & _ & _ & _ & _ & ->) | (ab & _ & _ & _ & _ & ->)]].
  - apply store_grows_refl.
  - split; [apply heap_grows_merge | apply lists_grow_refl].
  - split; [apply heap_grows_refl | apply lists_grow_append].
Qed.

(** A loop of growing steps grows the store. *)
Lemma foldl_grows {B} (f : Store → B → Store) (l : list B) st :
  (∀ s x, store_grows s (f s x)) → store_grows st (foldl f st l).
Proof.
  intros Hf. revert st. induction l as [|x l IH]; intros st; simpl.
  - apply store_grows_refl.
  - eapply store_grows_trans; [apply Hf | apply IH].
Qed.

Lemma add_ancestor_bindings_grows bi st j :
  store_grows st (add_ancestor_bindings bi st j).
Proof. apply foldl_grows. intros. apply add_ancestor_binding_grows. Qed.

Lemma process_bucket_grows st bi : store_grows st (process_bucket st bi).
Proof.
  unfold process_bucket. destruct (policy_data st !! bi) as [t|].
  - apply foldl_grows. intros. apply add_ancestor_bindings_grows.
  - apply store_grows_refl.
Qed.

Lemma resolver_grows st : store_grows st (_add_bucket_ancestor_bindings st).
Proof. apply foldl_grows. intros. apply process_bucket_grows. Qed.

(** ** What a step leaves alone *)

Lemma foldl_preserves_elem {S B} (P : S → Prop) (f : S → B → S)
    (l : list B) s :
  (∀ s x, x ∈ l → P s → P (f s x)) → P s → P (foldl f s l).
Proof.
  revert s. induction l as [|x l IH]; intros s Hf Hs; simpl; [done |].
  apply IH.
  - intros s' y Hy. apply Hf. by right.
  - apply Hf; [by left | done].
Qed.

(** The loop body touches no list but the one of the bucket. *)
Lemma add_ancestor_binding_frame bi st r (i : nat) :
  i ≠ bi →
  policy_data (add_ancestor_binding bi st r) !! i = policy_data st !! i.
Proof.
  intros Hne.
  destruct (add_ancestor_binding_cases bi st r)
    as [-> | [(ab & r' & _ & _ & _ & _ & ->) | (ab & _ & _ & _ & _ & ->)]];
    simpl; [done | done |].
  by rewrite list_lookup_alter_ne.
Qed.

Lemma add_ancestor_bindings_frame bi st (j i : nat) :
  i ≠ bi →
  policy_data (add_ancestor_bindings bi st j) !! i = policy_data st !! i.
Proof.
  intros Hne. unfold add_ancestor_bindings.
  apply (foldl_preserves
           (λ s, policy_data s !! i = policy_data st !! i)); [|done].
  intros s x Hs. by rewrite add_ancestor_binding_frame.
Qed.

Lemma process_bucket_frame st bi (i : nat) :
  i ≠ bi → policy_data (process_bucket st bi) !! i = policy_data st !! i.
Proof.
  intros Hne. unfold process_bucket.
  destruct (policy_data st !! bi) as [t|]; [|done].
  apply (foldl_preserves
           (λ s, policy_data s !! i = policy_data st !! i)); [|done].
  intros s x Hs. by rewrite add_ancestor_bindings_frame.
Qed.

(** The lists of the tuples that are not buckets hold the same objects, in
    the same order, after the resolver. *)
Lemma non_bucket_lists_kept st (i : nat) t :
  policy_data st !! i = Some t →
  Resource.type (resource t) ≠ "bucket" →
  policy_data (_add_bucket_ancestor_bindings st) !! i = Some t.
Proof.
  intros Ht Hty. unfold _add_bucket_ancestor_bindings.
  apply (foldl_preserves_elem (λ s, policy_data s !! i = Some t)); [|done].
  intros s bi Hbi Hs. rewrite process_bucket_frame; [done |].
  intros ->. apply elem_of_positions in Hbi as (tb & Htb & Hb).
  apply bool_decide_eq_true in Hb. congruence.
Qed.

(** ** Role names of a list *)

Lemma tuple_roles st (i : nat) :
  role_name <$> tuple_bindings st i
  = omap (λ r, role_name <$> heap st !! r) (bindings_at st i).
Proof. unfold tuple_bindings. apply list_fmap_omap. Qed.

Lemma bindings_at_append st bi r (i : nat) :
  bindings_at {| heap := heap st;
                 policy_data := alter (append_binding r) bi (policy_data st) |}
              i
  = if decide (i = bi ∧ is_Some (policy_data st !! bi))
    then bindings_at st i ++ [r] else bindings_at st i.
Proof.
  unfold bindings_at. simpl. destruct (decide (i = bi)) as [->|Hne].
  - rewrite list_lookup_alter_eq.
    destruct (policy_data st !! bi) as [t|] eqn:Ht; simpl.
    + rewrite decide_True; [done | eauto].
    + rewrite decide_False; [done |]. by intros [_ [? ?]].
  - rewrite list_lookup_alter_ne by done.
    rewrite decide_False; [done | by intros [? _]].
Qed.

Lemma add_ancestor_binding_roles_unique bi st r :
  roles_unique st → roles_unique (add_ancestor_binding bi st r).
Proof.
  intros Hu.
  destruct (add_ancestor_binding_cases bi st r)
    as [-> | [(ab & r' & _ & _ & _ & _ & ->)
             | (ab & Hr & _ & _ & Hnone & ->)]]; [done | |]; intros i.
  - specialize (Hu i). rewrite tuple_roles in *.
    unfold bindings_at in *; simpl in *.
    erewrite list_omap_ext; [exact Hu |].
    apply Forall2_same_length_lookup_2; [done |].
    intros k x y Hx Hy. assert (x = y) as -> by congruence.
    apply lookup_merge_role.
  - specialize (Hu i). rewrite tuple_roles in *.
    rewrite bindings_at_append. simpl.
    case_decide as Hi; [|done]. destruct Hi as [-> _].
    rewrite omap_app. simpl. rewrite Hr. simpl.
    apply NoDup_app. split_and!; [done | | apply NoDup_singleton].
    intros x Hx. apply list_elem_of_omap in Hx as (r0 & Hr0 & Hx).
    rewrite first_with_role_None in Hnone.
    intros ->%list_elem_of_singleton. by eapply Hnone.
Qed.

Lemma resolver_roles_unique st :
  roles_unique st → roles_unique (_add_bucket_ancestor_bindings st).
Proof.
  apply foldl_preserves. intros s bi Hs. unfold process_bucket.
  destruct (policy_data s !! bi) as [t|]; [|done].
  revert Hs. apply foldl_preserves. intros s' j.
  apply foldl_preserves. intros s'' r.
  apply add_ancestor_binding_roles_unique.
Qed.

(** A candidate ancestor of a bucket is another tuple than the bucket, so its
    list is not the list that the loop body appends to: the list of an
    ancestor is the same before and after every step of its traversal. *)
Lemma ancestor_list_fixed_while_traversed st bi t (j : nat) r :
  policy_data st !! bi = Some t →
  j ∈ all_ancestor_bindings (policy_data st) (resource t) →
  j ≠ bi
  ∧ bindings_at (add_ancestor_binding bi st r) j = bindings_at st j.
Proof.
  intros Ht (A & HA & Hanc)%elem_of_positions.
  assert (j ≠ bi) as Hne.
  { intros ->. assert (A = t) as -> by congruence.
    apply is_ancestor_spec in Hanc as [Hne _]. by apply Hne. }
  split; [done |]. unfold bindings_at.
  by rewrite add_ancestor_binding_frame.
Qed.

(** The end-to-end example of the specification: the bucket keeps its
    storage.objectViewer binding and gains the storage.admin binding of the
    project. *)
Example end_to_end_resolved :
  tuple_bindings (_add_bucket_ancestor_bindings Sample.end_to_end) 2
  = [Sample.viewer {[Sample.bob]}; Sample.admin {[Sample.alice]}].
Proof. vm_compute. reflexivity. Qed.

(** Member union on the same role: the bucket of [Sample.same_role] ends with
    one storage.admin binding that holds alice and bob, and the roles/owner
    binding of the project, which is outside the allow-list, is not added. *)
Example same_role_resolved :
  tuple_bindings (_add_bucket_ancestor_bindings Sample.same_role) 1
  = [Sample.admin {[Sample.alice; Sample.bob]}].
Proof. vm_compute. reflexivity. Qed.

(** * The resolver, binding by binding *)



(** * Candidate ancestors *)



(** * Shared binding objects

    [bucket_bindings.append(ancestor_binding)] puts the binding object of the
    ancestor itself on the list of the bucket.  A later [merge_members] on
    that entry of the bucket therefore changes the binding of the ancestor,
    and with it what every bucket processed afterwards inherits from that
    ancestor. *)

(** C3: the result depends on the order of the tuples.  [Sample.org_first]
    and [Sample.project_first] hold the same binding objects and the same
    tuples, in two orders.  The bucket "o/b2/" lies under the organization
    only, which grants storage.admin to bob.  With the organization first,
    the bucket ends with alice and bob, and alice is granted the role on the
    project "o/p/", which is not an ancestor of the bucket; with the project
    first, the bucket ends with bob alone. *)
Theorem C3_order_dependence :
  heap Sample.org_first = heap Sample.project_first
  ∧ policy_data Sample.org_first ≡ₚ policy_data Sample.project_first
  ∧ policy_data Sample.org_first !! 3 = Some (Sample.bucket "o/b2/" [])
  ∧ policy_data Sample.project_first !! 3 = Some (Sample.bucket "o/b2/" [])
  ∧ is_ancestor (Bucket "o/b2/" "o/b2/" "") (Project "o/p/" "o/p/" "") = false
  ∧ tuple_bindings (_add_bucket_ancestor_bindings Sample.org_first) 3
    = [Sample.admin {[Sample.alice; Sample.bob]}]
  ∧ tuple_bindings (_add_bucket_ancestor_bindings Sample.project_first) 3
    = [Sample.admin {[Sample.bob]}].
Proof.
  split_and!; try (vm_compute; reflexivity). apply perm_swap.
Qed.

(** C4: the binding of a project changes.  In [Sample.project_first] the
    project "o/p/" grants storage.admin to alice; after the resolver its list
    still holds the same object, which now grants the role to alice and
    bob. *)
Theorem C4_project_binding_changed :
  policy_data Sample.project_first !! 0 = Some (Sample.project "o/p/" [1])
  ∧ policy_data (_add_bucket_ancestor_bindings Sample.project_first) !! 0
    = Some (Sample.project "o/p/" [1])
  ∧ tuple_bindings Sample.project_first 0 = [Sample.admin {[Sample.alice]}]
  ∧ tuple_bindings (_add_bucket_ancestor_bindings Sample.project_first) 0
    = [Sample.admin {[Sample.alice; Sample.bob]}].
Proof. split_and!; vm_compute; reflexivity. Qed.

(** C7: a second run changes the store.  In [Sample.two_buckets] the bucket
    "o/b/" grants storage.admin to bob and inherits alice from the
    organization.  The first run also puts the binding object of the
    organization on the list of the bucket "o/p/c/" and merges carol, from
    the project, into it; the second run then merges carol into the binding
    of "o/b/". *)
Theorem C7_second_run_changes :
  tuple_bindings (_add_bucket_ancestor_bindings Sample.two_buckets) 2
  = [Sample.admin {[Sample.alice; Sample.bob]}]
  ∧ tuple_bindings (_add_bucket_ancestor_bindings
                      (_add_bucket_ancestor_bindings Sample.two_buckets)) 2
    = [Sample.admin {[Sample.alice; Sample.bob; Sample.carol]}]
  ∧ _add_bucket_ancestor_bindings
      (_add_bucket_ancestor_bindings Sample.two_buckets)
    ≠ _add_bucket_ancestor_bindings Sample.two_buckets.
Proof.
  split_and!; [vm_compute; reflexivity | vm_compute; reflexivity |].
  vm_compute. discriminate.
Qed.

(** * Empty full names *)

Lemma find_in_empty sub : sub ≠ "" → PyStr.find "" sub = (-1)%Z.
Proof. by destruct sub. Qed.

Lemma no_ancestor_of_empty (bucket resource : Resource) :
  Resource.full_name bucket = "" → is_ancestor bucket resource = false.
Proof.
  intros Hb. unfold is_ancestor. rewrite Hb.
  case_bool_decide as Hr; [done |]. by rewrite find_in_empty.
Qed.

(** The tuple with the empty full name of [Sample.empty_name] is a candidate
    ancestor of the bucket "o/b/", and the resolver puts its binding on the
    list of the bucket. *)
Lemma C5_counterexample :
  policy_data Sample.empty_name !! 0 = Some (Sample.organization "" [0])
  ∧ is_ancestor (Bucket "o/b/" "o/b/" "") (Organization "" "" "") = true
  ∧ tuple_bindings Sample.empty_name 1 = []
  ∧ tuple_bindings (_add_bucket_ancestor_bindings Sample.empty_name) 1
    = [Sample.admin {[Sample.alice]}].
Proof. split_and!; vm_compute; reflexivity. Qed.

(** C5, amended: a tuple whose full name is the empty string is a candidate
    ancestor of every bucket whose full name is not empty; a bucket whose
    full name is the empty string has no candidate ancestor, and processing
    it leaves the store as it is. *)
Theorem C5_empty_full_name :
  (∀ bucket resource : Resource,
      Resource.full_name resource = "" →
      Resource.full_name bucket ≠ "" →
      is_ancestor bucket resource = true)
  ∧ (∀ st bi t,
        policy_data st !! bi = Some t →
        Resource.full_name (resource t) = "" →
        all_ancestor_bindings (policy_data st) (resource t) = []
        ∧ process_bucket st bi = st).
Proof.
  split.
  - intros bucket resource Hr Hb. apply is_ancestor_spec.
    rewrite Hr. split; [done | by exists (Resource.full_name bucket)].
  - intros st bi t Ht Hempty.
    assert (all_ancestor_bindings (policy_data st) (resource t) = []) as Hnone.
    { apply positions_none. intros x _. by apply no_ancestor_of_empty. }
    split; [done |]. unfold process_bucket. by rewrite Ht, Hnone.
Qed.

(** The organization with the empty full name is a candidate ancestor of the
    bucket "o/b/", and the bucket with the empty full name of
    [Sample.empty_bucket] is left alone. *)
Lemma C5_empty_full_name_witness :
  is_ancestor (Bucket "o/b/" "o/b/" "") (Organization "" "" "") = true
  ∧ policy_data Sample.empty_bucket !! 1 = Some (Sample.bucket "" [1])
  ∧ process_bucket Sample.empty_bucket 1 = Sample.empty_bucket.
Proof.
  destruct C5_empty_full_name as [Hanc Hbucket].
  split_and!.
  - by apply Hanc.
  - reflexivity.
  - by apply (Hbucket Sample.empty_bucket 1 (Sample.bucket "" [1])).
Defined.

(** * Role uniqueness *)

(** C6: when no list of the store holds two bindings with the same role
    name, no list does after the resolver. *)
Theorem C6_roles_stay_unique st :
  roles_unique st → roles_unique (_add_bucket_ancestor_bindings st).
Proof. apply resolver_roles_unique. Qed.

Lemma C6_roles_stay_unique_witness :
  roles_unique Sample.same_role
  ∧ roles_unique (_add_bucket_ancestor_bindings Sample.same_role).
Proof.
  assert (roles_unique Sample.same_role) as Hu.
  { intros [|[|i]]; apply (bool_decide_unpack _); by vm_compute. }
  split; [exact Hu | exact (C6_roles_stay_unique Sample.same_role Hu)].
Defined.

(** * Monotonicity *)

(** C10: for a bucket tuple, the list after the resolver starts with the
    list before it, and every binding object of the list keeps its role and
    its members, possibly with more members; so every binding on the bucket
    before the resolver has a binding on the bucket afterwards with the same
    role and at least the same members. *)
Theorem C10_bucket_bindings_monotone st (i : nat) t :
  policy_data st !! i = Some t →
  Resource.type (resource t) = "bucket" →
  let st' := _add_bucket_ancestor_bindings st in
  (∃ t', policy_data st' !! i = Some t'
         ∧ resource t' = resource t
         ∧ bindings t `prefix_of` bindings t')
  ∧ (∀ r b, r ∈ bindings t → heap st !! r = Some b →
       ∃ b', heap st' !! r = Some b'
             ∧ role_name b' = role_name b ∧ members b ⊆ members b')
  ∧ (∀ b, b ∈ tuple_bindings st i →
       ∃ b', b' ∈ tuple_bindings st' i
             ∧ role_name b' = role_name b ∧ members b ⊆ members b').
Proof.
  intros Ht _ st'. destruct (resolver_grows st) as [[_ Hheap] [_ Hlists]].
  fold st' in Hheap, Hlists.
  destruct (Hlists i t Ht) as (t' & Ht' & Hres & _ & Hpre).
  split_and!.
  - by exists t'.
  - intros r b _ Hb. by apply Hheap.
  - intros b Hb. unfold tuple_bindings, bindings_at in *.
    rewrite Ht in Hb. rewrite Ht'. simpl in *.
    apply list_elem_of_omap in Hb as (r & Hr & Hb).
    destruct (Hheap r b Hb) as (b' & Hb' & Hrole & Hsub).
    exists b'. split_and!; [|done..].
    apply list_elem_of_omap. exists r. split; [|done].
    destruct Hpre as [more ->]. apply elem_of_app. by left.
Qed.

(** The bucket of [Sample.same_role] keeps its storage.admin binding, which
    still grants the role to bob. *)
Lemma C10_bucket_bindings_monotone_witness :
  policy_data Sample.same_role !! 1 = Some (Sample.bucket "o1/p1/b1/" [1])
  ∧ Resource.type (resource (Sample.bucket "o1/p1/b1/" [1])) = "bucket"
  ∧ ∃ b', heap (_add_bucket_ancestor_bindings Sample.same_role) !! 1
          = Some b'
          ∧ role_name b' = role_name (Sample.admin {[Sample.bob]})
          ∧ members (Sample.admin {[Sample.bob]}) ⊆ members b'.
Proof.
  split; [reflexivity |]. split; [reflexivity |].
  destruct (C10_bucket_bindings_monotone Sample.same_role 1
              (Sample.bucket "o1/p1/b1/" [1]) eq_refl eq_refl)
    as (_ & Hobjects & _).
  apply (Hobjects 1 (Sample.admin {[Sample.bob]})); [|reflexivity].
  apply list_elem_of_singleton. reflexivity.
Defined.

(** * Flattening *)

Lemma flatten_members_fmap violation ms :
  flatten_members violation ms = flatten_member violation <$> ms.
Proof. induction ms as [|m ms IH]; simpl; [done | by rewrite IH]. Qed.

Lemma flatten_violations_app vs1 vs2 :
  _flatten_violations (vs1 ++ vs2)
  = _flatten_violations vs1 ++ _flatten_violations vs2.
Proof.
  induction vs1 as [|v vs1 IH]; simpl; [done |].
  by rewrite IH, (assoc_L (++)).
Qed.

(** C8: the flattener yields one record for every (violation, member) pair,
    in order; the record carries the attributes of the violation and a
    [violation_data] made of the full name and the role of the violation and
    of the member written as its type, a colon and its name; the number of
    records is the total number of members, and a violation without members
    adds no record. *)
Theorem C8_flatten_one_record_per_member :
  (∀ violations,
      _flatten_violations violations
      = (λ vm, flatten_member vm.1 vm.2) <$> violation_members violations)
  ∧ (∀ violations,
        length (_flatten_violations violations)
        = sum_list (length ∘ RuleViolation.members <$> violations))
  ∧ (∀ v m,
        flatten_member v m
        = {| Flat.resource_id := RuleViolation.resource_id v;
             Flat.resource_type := RuleViolation.resource_type v;
             Flat.full_name := RuleViolation.full_name v;
             Flat.rule_index := RuleViolation.rule_index v;
             Flat.rule_name := RuleViolation.rule_name v;
             Flat.violation_type := RuleViolation.violation_type v;
             Flat.violation_data :=
               {| Flat.vd_full_name := RuleViolation.full_name v;
                  Flat.vd_role := RuleViolation.role v;
                  Flat.vd_member :=
                    IamPolicyMember.type m +:+ ":" +:+ IamPolicyMember.name m
               |};
             Flat.inventory_data := RuleViolation.inventory_data v |})
  ∧ (∀ vs1 v vs2,
        RuleViolation.members v = [] →
        _flatten_violations (vs1 ++ v :: vs2)
        = _flatten_violations vs1 ++ _flatten_violations vs2).
Proof.
  split_and!.
  - intros violations. unfold violation_members.
    induction violations as [|v vs IH]; simpl; [done |].
    rewrite IH, flatten_members_fmap, fmap_app, <- list_fmap_compose.
    done.
  - intros violations. induction violations as [|v vs IH]; simpl; [done |].
    by rewrite length_app, IH, flatten_members_fmap, length_fmap.
  - done.
  - intros vs1 v vs2 Hv. rewrite flatten_violations_app. simpl.
    by rewrite Hv.
Qed.

(** A violation naming alice and bob yields two records, which differ in the
    member only, and a violation without members yields none. *)
Lemma C8_flatten_one_record_per_member_witness :
  length (_flatten_violations
            [Sample.violation [Sample.alice; Sample.bob];
             Sample.violation []]) = 2
  ∧ _flatten_violations [Sample.violation []] = [].
Proof.
  destruct C8_flatten_one_record_per_member as (_ & Hlen & _ & Hnone).
  split.
  - by rewrite Hlen.
  - by apply (Hnone [] (Sample.violation []) []).
Defined.

(** * The run *)

(** C9: when the retrieval loop collects no tuple, the run warns and leaves
    through [sys.exit(1)]: the rules engine is not called and nothing is
    handed to the sinks. *)
Theorem C9_empty_retrieval_exits
    (create_bindings : string → list IamPolicyBinding)
    (find_policy_violations :
       Resource → DataModel.policy_t → list IamPolicyBinding
       → list RuleViolation.t)
    (policies : list DataModel.policy_t) (tr : list Event) :
  policy_data (retrieved create_bindings policies).1 = [] →
  _retrieve create_bindings policies tr
  = (SystemExit 1, tr ++ [LogWarn "No policies found. Exiting."])
  ∧ run create_bindings find_policy_violations policies tr
    = (SystemExit 1, tr ++ [LogWarn "No policies found. Exiting."]).
Proof.
  intros Hempty. unfold run, scan_bind, _retrieve. rewrite Hempty.
  by unfold scan_bind, emit, sys_exit.
Qed.

(** A data model whose only policy is attached to a resource of an
    unsupported kind. *)
Lemma C9_empty_retrieval_exits_witness :
  run (λ _, []) (λ _ _ _, []) [Sample.record_of "dataset" "o1/p1/d1"] []
  = (SystemExit 1, [LogWarn "No policies found. Exiting."]).
Proof.
  exact (proj2 (C9_empty_retrieval_exits (λ _, []) (λ _ _ _, [])
                  [Sample.record_of "dataset" "o1/p1/d1"] [] eq_refl)).
Defined.

(** * Further properties of the resolver *)

Lemma resolver_shape st :
  length (heap (_add_bucket_ancestor_bindings st)) = length (heap st)
  ∧ resource <$> policy_data (_add_bucket_ancestor_bindings st)
    = resource <$> policy_data st
  ∧ policy <$> policy_data (_add_bucket_ancestor_bindings st)
    = policy <$> policy_data st
  ∧ ∀ r, role_name <$> heap (_add_bucket_ancestor_bindings st) !! r
         = role_name <$> heap st !! r.
Proof.
  destruct (resolver_grows st) as [[Hlen Hheap] [Hlen' Hlists]].
  assert (∀ {A} (f : PolicyTuple → A),
             (∀ i t t', policy_data st !! i = Some t →
                policy_data (_add_bucket_ancestor_bindings st) !! i = Some t' →
                f t' = f t) →
             f <$> policy_data (_add_bucket_ancestor_bindings st)
             = f <$> policy_data st) as Hmap.
  { intros A f Hf. apply list_eq. intros i. rewrite !list_lookup_fmap.
    destruct (policy_data st !! i) as [t|] eqn:Ht.
    - destruct (Hlists i t Ht) as (t' & Ht' & _). rewrite Ht'. simpl.
      f_equal. by eapply Hf.
    - apply lookup_ge_None in Ht. rewrite <- Hlen' in Ht.
      apply lookup_ge_None in Ht. by rewrite Ht. }
  split_and!; [done | | |].
  - apply Hmap. intros i t t' Ht Ht'.
    destruct (Hlists i t Ht) as (t'' & Ht'' & Hres & _). congruence.
  - apply Hmap. intros i t t' Ht Ht'.
    destruct (Hlists i t Ht) as (t'' & Ht'' & _ & Hpol & _). congruence.
  - intros r. destruct (heap st !! r) as [b|] eqn:Hb.
    + destruct (Hheap r b Hb) as (b' & -> & Hrole & _). simpl. by f_equal.
    + apply lookup_ge_None in Hb. rewrite <- Hlen in Hb.
      apply lookup_ge_None in Hb. by rewrite Hb.
Qed.

(** X1: the list of a tuple that is not a bucket holds the same binding
    objects, in the same order, after the resolver. *)
Theorem X1_non_bucket_lists_kept st (i : nat) t :
  policy_data st !! i = Some t →
  Resource.type (resource t) ≠ "bucket" →
  policy_data (_add_bucket_ancestor_bindings st) !! i = Some t.
Proof. apply non_bucket_lists_kept. Qed.

Lemma X1_non_bucket_lists_kept_witness :
  policy_data Sample.project_first !! 0 = Some (Sample.project "o/p/" [1])
  ∧ Resource.type (resource (Sample.project "o/p/" [1])) ≠ "bucket"
  ∧ policy_data (_add_bucket_ancestor_bindings Sample.project_first) !! 0
    = Some (Sample.project "o/p/" [1]).
Proof.
  split; [reflexivity |]. split; [discriminate |].
  apply (X1_non_bucket_lists_kept Sample.project_first 0); [reflexivity |].
  discriminate.
Defined.

(** X2: the resolver creates and drops no binding object and no tuple: the
    heap keeps its size, every object keeps its role name, and the resources
    and policies of the tuples are the same, in the same order. *)
Theorem X2_resolver_keeps_shape st :
  length (heap (_add_bucket_ancestor_bindings st)) = length (heap st)
  ∧ resource <$> policy_data (_add_bucket_ancestor_bindings st)
    = resource <$> policy_data st
  ∧ policy <$> policy_data (_add_bucket_ancestor_bindings st)
    = policy <$> policy_data st
  ∧ ∀ r, role_name <$> heap (_add_bucket_ancestor_bindings st) !! r
         = role_name <$> heap st !! r.
Proof. apply resolver_shape. Qed.

Lemma add_ancestor_binding_skips_role bi st r :
  (∀ b, heap st !! r = Some b → role_name b ∉ storage_iam_roles) →
  add_ancestor_binding bi st r = st.
Proof.
  intros Hout. unfold add_ancestor_binding.
  destruct (heap st !! r) as [ab|]; [|done].
  by rewrite bool_decide_eq_true_2 by (by apply Hout).
Qed.

(** X3: the resolver leaves the store as it is when there is no bucket
    tuple, and when no binding object has a role of the storage
    allow-list. *)
Theorem X3_resolver_identity st :
  ((∀ t, t ∈ policy_data st → Resource.type (resource t) ≠ "bucket")
   → _add_bucket_ancestor_bindings st = st)
  ∧ ((∀ r b, heap st !! r = Some b → role_name b ∉ storage_iam_roles)
     → _add_bucket_ancestor_bindings st = st).
Proof.
  split.
  - intros Hnone. unfold _add_bucket_ancestor_bindings, bucket_data.
    rewrite positions_none; [done |]. intros t Ht.
    by apply bool_decide_eq_false_2, Hnone.
  - intros Hout. unfold _add_bucket_ancestor_bindings.
    generalize (bucket_data (policy_data st)). intros buckets.
    apply (foldl_preserves (λ s, s = st)); [|done].
    intros s bi ->. unfold process_bucket.
    destruct (policy_data st !! bi) as [t|]; [|done].
    apply (foldl_preserves (λ s, s = st)); [|done].
    intros s j ->. unfold add_ancestor_bindings.
    apply (foldl_preserves (λ s, s = st)); [|done].
    intros s r ->. apply add_ancestor_binding_skips_role. eauto.
Qed.

(** A store without buckets, and a store whose only binding is outside the
    allow-list. *)
Lemma X3_resolver_identity_witness :
  _add_bucket_ancestor_bindings
    {| heap := [Sample.admin {[Sample.alice]}];
       policy_data := [Sample.organization "o/" [0]] |}
  = {| heap := [Sample.admin {[Sample.alice]}];
       policy_data := [Sample.organization "o/" [0]] |}
  ∧ _add_bucket_ancestor_bindings
      {| heap := [Sample.owner {[Sample.alice]}];
         policy_data := [Sample.organization "o/" [0];
                         Sample.bucket "o/b/" []] |}
    = {| heap := [Sample.owner {[Sample.alice]}];
         policy_data := [Sample.organization "o/" [0];
                         Sample.bucket "o/b/" []] |}.
Proof.
  split.
  - apply (proj1 (X3_resolver_identity _)). intros t Ht.
    apply list_elem_of_singleton in Ht as ->. discriminate.
  - apply (proj2 (X3_resolver_identity _)). intros [|r] b Hb; [|done].
    injection Hb as <-. vm_compute. intros H.
    repeat (apply elem_of_cons in H as [H|H]; [discriminate |]).
    by apply elem_of_nil in H.
Defined.

(** Roles of the objects of a store are those of the store it grew from. *)
Lemma store_grows_role st s r :
  store_grows st s → role_name <$> heap s !! r = role_name <$> heap st !! r.
Proof.
  intros [[Hlen Hheap] _]. destruct (heap st !! r) as [b|] eqn:Hb.
  - destruct (Hheap r b Hb) as (b' & -> & Hrole & _). simpl. by f_equal.
  - apply lookup_ge_None in Hb. rewrite <- Hlen in Hb.
    apply lookup_ge_None in Hb. by rewrite Hb.
Qed.

(** A property of the stores that grew from [st], kept by the loop body, is
    kept by the resolver. *)
Lemma resolver_invariant st (P : Store → Prop) :
  (∀ s bi r, store_grows st s → P s → P (add_ancestor_binding bi s r)) →
  P st → P (_add_bucket_ancestor_bindings st).
Proof.
  intros Hstep Hst.
  pose (Q := λ s, store_grows st s ∧ P s).
  assert (∀ s bi r, Q s → Q (add_ancestor_binding bi s r)) as HQ.
  { intros s bi r [Hg Hp]. split; [|by apply Hstep].
    eapply store_grows_trans; [done | apply add_ancestor_binding_grows]. }
  assert (Q (_add_bucket_ancestor_bindings st)) as [_ H]; [|done].
  unfold _add_bucket_ancestor_bindings. apply foldl_preserves; [|split; [apply store_grows_refl | done]].
  intros s bi Hs. unfold process_bucket.
  destruct (policy_data s !! bi) as [t|]; [|done].
  revert Hs. apply foldl_preserves. intros s' j.
  apply foldl_preserves. intros s'' r. apply HQ.
Qed.

(** X4: every binding object on a list after the resolver was on that list
    before, or has a role of the storage allow-list. *)
Theorem X4_appended_roles_allowed st (i : nat) (r : ref) :
  r ∈ bindings_at (_add_bucket_ancestor_bindings st) i →
  r ∈ bindings_at st i
  ∨ ∃ b, heap st !! r = Some b ∧ role_name b ∈ storage_iam_roles.
Proof.
  revert r. apply (resolver_invariant st (λ s, ∀ r, r ∈ bindings_at s i → _));
    [|by intros r Hr; left].
  intros s bi r0 Hg Hs r.
  destruct (add_ancestor_binding_cases bi s r0)
    as [-> | [(ab & r' & _ & _ & _ & _ & ->)
             | (ab & Hr0 & Hallow & _ & _ & ->)]]; [apply Hs | apply Hs |].
  rewrite bindings_at_append. case_decide; [|apply Hs].
  intros [Hin | ->%list_elem_of_singleton]%elem_of_app; [by apply Hs |].
  right. assert (Hrole := store_grows_role st s r0 Hg).
  rewrite Hr0 in Hrole. simpl in Hrole.
  destruct (heap st !! r0) as [b|]; [|done].
  exists b. split; [done |]. injection Hrole as <-. done.
Qed.

(** In the end-to-end example the storage.admin binding of the project is
    put on the list of the bucket. *)
Lemma X4_appended_roles_allowed_witness :
  0 ∈ bindings_at (_add_bucket_ancestor_bindings Sample.end_to_end) 2
  ∧ (0 ∈ bindings_at Sample.end_to_end 2
     ∨ ∃ b, heap Sample.end_to_end !! 0 = Some b
            ∧ role_name b ∈ storage_iam_roles).
Proof.
  assert (0 ∈ bindings_at (_add_bucket_ancestor_bindings Sample.end_to_end) 2)
    as Hin.
  { vm_compute. right. left. }
  split; [exact Hin |].
  exact (X4_appended_roles_allowed Sample.end_to_end 2 0 Hin).
Defined.

(** X5: a binding object whose role is outside the storage allow-list is the
    same after the resolver: nothing is merged into it. *)
Theorem X5_other_roles_untouched st (r : ref) b :
  heap st !! r = Some b →
  role_name b ∉ storage_iam_roles →
  heap (_add_bucket_ancestor_bindings st) !! r = Some b.
Proof.
  intros Hb Hout.
  apply (resolver_invariant st (λ s, heap s !! r = Some b)); [|done].
  intros s bi r0 _ Hs.
  destruct (add_ancestor_binding_cases bi s r0)
    as [-> | [(ab & r' & _ & Hallow & _ & Hfirst & ->)
             | (ab & _ & _ & _ & _ & ->)]]; [done | | done].
  simpl. destruct (decide (r' = r)) as [->|Hne].
  - apply first_with_role_Some in Hfirst as (k & _ & Hrole & _).
    rewrite Hs in Hrole. injection Hrole as Hrole. congruence.
  - by rewrite list_lookup_alter_ne.
Qed.

(** The roles/owner binding of the project of [Sample.same_role]. *)
Lemma X5_other_roles_untouched_witness :
  heap Sample.same_role !! 2 = Some (Sample.owner {[Sample.carol]})
  ∧ (role_name (Sample.owner {[Sample.carol]}) ∉ storage_iam_roles)
  ∧ heap (_add_bucket_ancestor_bindings Sample.same_role) !! 2
    = Some (Sample.owner {[Sample.carol]}).
Proof.
  assert (role_name (Sample.owner {[Sample.carol]}) ∉ storage_iam_roles)
    as Hout.
  { intros H. repeat (apply elem_of_cons in H as [H|H]; [discriminate |]).
    by apply elem_of_nil in H. }
  split; [reflexivity |]. split; [exact Hout |].
  exact (X5_other_roles_untouched Sample.same_role 2
           (Sample.owner {[Sample.carol]}) eq_refl Hout).
Defined.

(** X6: the resolver never puts a binding object on a list that already
    holds it: a list without repeated objects has none afterwards. *)
Theorem X6_no_repeated_object st (i : nat) :
  NoDup (bindings_at st i) →
  NoDup (bindings_at (_add_bucket_ancestor_bindings st) i).
Proof.
  apply (resolver_invariant st (λ s, NoDup (bindings_at s i))).
  intros s bi r _ Hs.
  destruct (add_ancestor_binding_cases bi s r)
    as [-> | [(ab & r' & _ & _ & _ & _ & ->)
             | (ab & Hr & _ & Hin & _ & ->)]]; [done | done |].
  rewrite bindings_at_append. case_decide as Hi; [|done].
  destruct Hi as [-> _]. apply NoDup_app. split_and!; [done | | apply NoDup_singleton].
  intros x Hx ->%list_elem_of_singleton.
  assert (binding_in (heap s) ab (bindings_at s bi) = true) as Htrue.
  { apply binding_in_spec. by exists r. }
  congruence.
Qed.

Lemma X6_no_repeated_object_witness :
  NoDup (bindings_at Sample.org_first 3)
  ∧ NoDup (bindings_at (_add_bucket_ancestor_bindings Sample.org_first) 3).
Proof.
  assert (NoDup (bindings_at Sample.org_first 3)) as Hnd.
  { vm_compute. apply NoDup_nil_2. }
  split; [exact Hnd | exact (X6_no_repeated_object Sample.org_first 3 Hnd)].
Defined.

(** X7: the test for candidate ancestors is a strict order on full names: no
    resource is a candidate ancestor of itself, two resources are never
    candidate ancestors of each other, and a candidate ancestor of a
    candidate ancestor of a resource is a candidate ancestor of that
    resource. *)
Theorem X7_is_ancestor_strict_order :
  (∀ a : Resource, is_ancestor a a = false)
  ∧ (∀ a b : Resource, is_ancestor b a = true → is_ancestor a b = false)
  ∧ (∀ a b c : Resource,
        is_ancestor b a = true → is_ancestor c b = true →
        is_ancestor c a = true).
Proof.
  split_and!.
  - intros a. unfold is_ancestor. by rewrite bool_decide_eq_true_2.
  - intros a b [_ [rest Hp]]%is_ancestor_spec.
    by apply (descendant_not_ancestor _ _ rest).
  - intros a b c [Hab [r1 H1]]%is_ancestor_spec [Hbc [r2 H2]]%is_ancestor_spec.
    apply is_ancestor_spec. split.
    + intros Heq. apply Hab. rewrite Heq in H1 |- *.
      symmetry. exact (PyStrFacts.prefix_antisym _ _ r1 r2 H1 H2).
    + exists (r1 +:+ r2). by rewrite H2, H1, PyStrFacts.app_assoc.
Qed.

Lemma X7_is_ancestor_strict_order_witness :
  is_ancestor (Bucket "b" "o/p/b/" "") (Organization "o" "o/" "") = true.
Proof.
  destruct X7_is_ancestor_strict_order as (_ & _ & Htrans).
  by apply (Htrans _ (Project "p" "o/p/" "")).
Defined.

(** ** Every allow-listed grant of an ancestor reaches the bucket *)

Lemma bindings_at_grows st s (i : nat) (r : ref) :
  store_grows st s → r ∈ bindings_at st i → r ∈ bindings_at s i.
Proof.
  intros [_ [_ Hlists]]. unfold bindings_at.
  destruct (policy_data st !! i) as [t|] eqn:Ht; simpl;
    [|by intros ?%elem_of_nil].
  destruct (Hlists i t Ht) as (t' & Ht' & _ & _ & [more Hmore]).
  rewrite Ht'. simpl. rewrite Hmore. intros Hr. apply elem_of_app. by left.
Qed.

Lemma covers_grows st s bi ab :
  store_grows st s → covers st bi ab → covers s bi ab.
Proof.
  intros Hg (r0 & b0 & Hin & Hb0 & Hrole & Hsub).
  destruct Hg as [[? Hheap] ?].
  destruct (Hheap r0 b0 Hb0) as (b' & Hb' & Hrole' & Hsub').
  exists r0, b'. split_and!; [|done | congruence | set_solver].
  eapply bindings_at_grows; [|done]. by split.
Qed.

Lemma add_ancestor_binding_covers bi st r ab t :
  policy_data st !! bi = Some t →
  heap st !! r = Some ab →
  role_name ab ∈ storage_iam_roles →
  covers (add_ancestor_binding bi st r) bi ab.
Proof.
  intros Ht Hr Hallow. unfold add_ancestor_binding. rewrite Hr.
  rewrite bool_decide_eq_false_2 by (by intros ?).
  destruct (binding_in _ _ _) eqn:Hin.
  { apply binding_in_spec in Hin as (r' & Hr' & Heq).
    exists r', ab. split_and!; done. }
  destruct (first_with_role _ _ _) as [r'|] eqn:Hfirst.
  - apply first_with_role_Some in Hfirst as (k & Hk & Hrole & _).
    destruct (heap st !! r') as [bb|] eqn:Hbb; [|done].
    injection Hrole as Hrole.
    exists r', (merge_members bb ab). split_and!.
    + unfold bindings_at. simpl. fold (bindings_at st bi).
      by eapply list_elem_of_lookup_2.
    + simpl. by rewrite list_lookup_alter_eq, Hbb.
    + done.
    + simpl. apply union_subseteq_r.
  - exists r, ab. split_and!; try done.
    rewrite bindings_at_append, decide_True by eauto.
    apply elem_of_app. right. by apply list_elem_of_singleton.
Qed.

(** What a step of a loop establishes for its element, and growth keeps,
    holds after the loop for every element. *)
Lemma foldl_establishes {B} (f : Store → B → Store) (Q : B → Store → Prop)
    (st0 : Store) (l : list B) s :
  (∀ s x, store_grows s (f s x)) →
  (∀ x s s', store_grows s s' → Q x s → Q x s') →
  (∀ s x, x ∈ l → store_grows st0 s → Q x (f s x)) →
  store_grows st0 s →
  ∀ x, x ∈ l → Q x (foldl f s l).
Proof.
  intros Hgrow Hmono. revert s.
  induction l as [|y l IH]; intros s Hest Hs x Hx; [by apply elem_of_nil in Hx |].
  simpl. apply elem_of_cons in Hx as [->|Hx].
  - apply (Hmono y (f s y)); [by apply foldl_grows |].
    apply Hest; [by left | done].
  - apply IH; [| |done].
    + intros s' z Hz. apply Hest. by right.
    + eapply store_grows_trans; [done | apply Hgrow].
Qed.

(** X8: after the resolver, for every bucket, every candidate ancestor and
    every binding of that ancestor with a role of the allow-list, the list
    of the bucket holds a binding with that role and at least the members
    that the binding of the ancestor had. *)
Theorem X8_inherited_grants_reach_bucket st bi t (j : nat) A (r : ref) ab :
  policy_data st !! bi = Some t →
  Resource.type (resource t) = "bucket" →
  policy_data st !! j = Some A →
  is_ancestor (resource t) (resource A) = true →
  r ∈ bindings A →
  heap st !! r = Some ab →
  role_name ab ∈ storage_iam_roles →
  covers (_add_bucket_ancestor_bindings st) bi ab.
Proof.
  intros Ht Hty HA Hanc Hr Hab Hallow.
  pose (Q3 := λ (bi' : nat) (s : Store), bi' = bi → covers s bi ab).
  assert (Q3 bi (_add_bucket_ancestor_bindings st)) as H; [|by apply H].
  unfold _add_bucket_ancestor_bindings.
  apply (foldl_establishes process_bucket Q3 st);
    [apply process_bucket_grows | | | apply store_grows_refl |].
  - intros x s s' Hg Hq ->. eapply covers_grows; [done | by apply Hq].
  - intros s x _ Hs ->. unfold process_bucket.
    destruct Hs as [Hheap [Hlen Hlists]].
    destruct (Hlists bi t Ht) as (ts & Hts & Hres & _).
    destruct (Hlists j A HA) as (As & HAs & HresA & _ & Hpre).
    rewrite Hts, Hres.
    pose (Q2 := λ (j' : nat) (s' : Store), j' = j → covers s' bi ab).
    assert (Q2 j (foldl (add_ancestor_bindings bi) s
                    (all_ancestor_bindings (policy_data s) (resource t))))
      as H; [|by apply H].
    apply (foldl_establishes (add_ancestor_bindings bi) Q2 st);
      [apply add_ancestor_bindings_grows | | | by split |].
    + intros y s1 s2 Hg Hq ->. eapply covers_grows; [done | by apply Hq].
    + intros s1 y _ Hs1 ->. unfold add_ancestor_bindings.
      pose (Q1 := λ (r' : ref) (s' : Store), r' = r → covers s' bi ab).
      assert (Q1 r (foldl (add_ancestor_binding bi) s1 (bindings_at s1 j)))
        as H; [|by apply H].
      apply (foldl_establishes (add_ancestor_binding bi) Q1 st);
        [apply add_ancestor_binding_grows | | | done |].
      * intros z s2 s3 Hg Hq ->. eapply covers_grows; [done | by apply Hq].
      * intros s2 z _ Hs2 ->.
        destruct Hs2 as [[Hlen2 Hheap2] [Hlen2' Hlists2]].
        destruct (Hlists2 bi t Ht) as (t2 & Ht2 & _).
        destruct (Hheap2 r ab Hab) as (ab2 & Hab2 & Hrole2 & Hsub2).
        destruct (add_ancestor_binding_covers bi s2 r ab2 t2)
          as (r0 & b0 & Hin & Hb0 & Hrole0 & Hsub0);
          [done | done | by rewrite Hrole2 |].
        exists r0, b0. split_and!; [done | done | congruence | by etrans].
      * eapply bindings_at_grows; [done |].
        unfold bindings_at. by rewrite HA.
    + apply elem_of_positions. exists As. split; [done |]. by rewrite HresA.
  - apply elem_of_positions. exists t. split; [done |].
    by apply bool_decide_eq_true_2.
Qed.

(** The bucket "o/p/b/" of [Sample.org_first] receives the storage.admin
    grant of the project to alice. *)
Lemma X8_inherited_grants_reach_bucket_witness :
  covers (_add_bucket_ancestor_bindings Sample.org_first) 2
         (Sample.admin {[Sample.alice]}).
Proof.
  apply (X8_inherited_grants_reach_bucket Sample.org_first 2
           (Sample.bucket "o/p/b/" []) 1 (Sample.project "o/p/" [1]) 1);
    try reflexivity.
  - apply list_elem_of_singleton. reflexivity.
  - left.
Defined.

(** * Retrieval *)

Section RetrieveFacts.

Variable create_bindings : string → list IamPolicyBinding.

Lemma retrieve_policy_unsupported acc p :
  ¬ supported p → retrieve_policy create_bindings acc p = acc.
Proof.
  intros Hp. unfold retrieve_policy. by rewrite bool_decide_eq_true_2.
Qed.

(** A policy of a supported kind adds its binding objects to the heap and
    one tuple to [policy_data]. *)
Lemma retrieve_policy_supported acc p :
  supported p →
  (retrieve_policy create_bindings acc p).1
  = {| heap := heap acc.1 ++ create_bindings (DataModel.data p);
       policy_data :=
         policy_data acc.1
         ++ [{| resource := resource_of p; policy := p;
                bindings := seq (length (heap acc.1))
                                (length (create_bindings (DataModel.data p)))
             |}] |}.
Proof.
  intros Hp. unfold retrieve_policy.
  rewrite bool_decide_eq_false_2 by (by intros H; apply H).
  unfold supported, supported_iam_types in Hp. unfold resource_of.
  destruct p as [[ty nm fn] d]. simpl in *.
  repeat (apply elem_of_cons in Hp as [->|Hp]; [reflexivity |]).
  by apply elem_of_nil in Hp.
Qed.

(** Induction over the policies that the loop of [_retrieve] has seen. *)
Lemma retrieved_ind
    (P : list DataModel.policy_t → Store * ResourceCounts → Prop) :
  P [] ({| heap := []; policy_data := [] |}, no_counts) →
  (∀ ps acc p, P ps acc → P (ps ++ [p]) (retrieve_policy create_bindings acc p)) →
  ∀ ps, P ps (retrieved create_bindings ps).
Proof.
  intros Hnil Hstep ps. unfold retrieved.
  induction ps as [|p ps IH] using rev_ind; [done |].
  rewrite foldl_app. simpl. by apply Hstep.
Qed.

Lemma retrieved_policies ps :
  policy <$> policy_data (retrieved create_bindings ps).1
  = filter supported ps
  ∧ resource <$> policy_data (retrieved create_bindings ps).1
    = resource_of <$> filter supported ps.
Proof.
  apply (retrieved_ind (λ ps acc,
    policy <$> policy_data acc.1 = filter supported ps
    ∧ resource <$> policy_data acc.1 = resource_of <$> filter supported ps));
    [done |].
  clear ps. intros ps acc p [Hpol Hres]. rewrite filter_app.
  destruct (decide (supported p)) as [Hp|Hp].
  - rewrite retrieve_policy_supported by done. simpl.
    rewrite !fmap_app, Hpol, Hres. simpl.
    rewrite (filter_cons_True supported) by done. by rewrite filter_nil.
  - rewrite retrieve_policy_unsupported by done.
    rewrite (filter_cons_False supported) by done.
    rewrite filter_nil, !(right_id_L [] (++)). done.
Qed.

Lemma retrieved_heap ps :
  heap (retrieved create_bindings ps).1
  = filter supported ps ≫= λ p, create_bindings (DataModel.data p).
Proof.
  apply (retrieved_ind (λ ps acc,
    heap acc.1
    = filter supported ps ≫= λ p, create_bindings (DataModel.data p)));
    [done |].
  clear ps. intros ps acc p Hheap. rewrite filter_app.
  destruct (decide (supported p)) as [Hp|Hp].
  - rewrite retrieve_policy_supported by done. simpl.
    rewrite (filter_cons_True supported) by done.
    rewrite filter_nil, bind_app, Hheap. simpl.
    by rewrite (right_id_L [] (++)).
  - rewrite retrieve_policy_unsupported by done.
    rewrite (filter_cons_False supported) by done.
    by rewrite filter_nil, (right_id_L [] (++)).
Qed.

Lemma retrieved_addresses ps :
  mjoin (bindings <$> policy_data (retrieved create_bindings ps).1)
  = seq 0 (length (heap (retrieved create_bindings ps).1)).
Proof.
  apply (retrieved_ind (λ ps acc,
    mjoin (bindings <$> policy_data acc.1) = seq 0 (length (heap acc.1))));
    [done |].
  clear ps. intros ps acc p Hinv.
  destruct (decide (supported p)) as [Hp|Hp].
  - rewrite retrieve_policy_supported by done. simpl.
    rewrite fmap_app, join_app, Hinv, length_app, seq_app. simpl.
    by rewrite (right_id_L [] (++)).
  - by rewrite retrieve_policy_unsupported.
Qed.

(** The objects at the addresses [length pre], ... of a heap. *)
Lemma omap_lookup_seq (pre mid post : list IamPolicyBinding) :
  omap (λ r : nat, (pre ++ mid ++ post) !! r) (seq (length pre) (length mid))
  = mid.
Proof.
  revert pre. induction mid as [|x mid IH]; intros pre; [done |].
  simpl. rewrite list_lookup_middle by done. f_equal.
  specialize (IH (pre ++ [x])).
  rewrite length_app, Nat.add_1_r, <- (assoc_L (++)) in IH. exact IH.
Qed.

Lemma retrieved_bindings ps (i : nat) t :
  policy_data (retrieved create_bindings ps).1 !! i = Some t →
  bindings_of (heap (retrieved create_bindings ps).1) t
  = create_bindings (DataModel.data (policy t)).
Proof.
  assert (∀ (i : nat) t,
    policy_data (retrieved create_bindings ps).1 !! i = Some t →
    ∃ pre post,
      heap (retrieved create_bindings ps).1
      = pre ++ create_bindings (DataModel.data (policy t)) ++ post
      ∧ bindings t
        = seq (length pre)
              (length (create_bindings (DataModel.data (policy t)))))
    as Hinv.
  { apply (retrieved_ind (λ ps acc, ∀ (i : nat) t,
      policy_data acc.1 !! i = Some t →
      ∃ pre post,
        heap acc.1 = pre ++ create_bindings (DataModel.data (policy t)) ++ post
        ∧ bindings t
          = seq (length pre)
                (length (create_bindings (DataModel.data (policy t))))));
      [done |].
    clear. intros ps acc p Hinv k t.
    destruct (decide (supported p)) as [Hp|Hp];
      [|rewrite retrieve_policy_unsupported by done; apply Hinv].
    rewrite retrieve_policy_supported by done. simpl.
    intros [Hk | [_ Hk]]%lookup_app_Some.
    - destruct (Hinv k t Hk) as (pre & post & Hheap & Hb).
      exists pre, (post ++ create_bindings (DataModel.data p)).
      split; [|done]. by rewrite Hheap, <- !(assoc_L (++)).
    - destruct (k - length (policy_data acc.1)) as [|?]; [|done].
      injection Hk as <-. simpl. exists (heap acc.1), []. split; [|done].
      by rewrite (right_id_L [] (++)). }
  intros Ht. destruct (Hinv i t Ht) as (pre & post & -> & Hb).
  unfold bindings_of. rewrite Hb. apply omap_lookup_seq.
Qed.

Lemma count_kind_snoc kind pd t :
  count_kind kind (pd ++ [t])
  = count_kind kind pd
    + (if decide (Resource.type (resource t) = kind) then 1 else 0).
Proof.
  unfold count_kind. rewrite filter_app, length_app. f_equal.
  rewrite filter_cons, filter_nil. by case_decide.
Qed.

Lemma retrieved_counts ps :
  let pd := policy_data (retrieved create_bindings ps).1 in
  let counts := (retrieved create_bindings ps).2 in
  org_iam_policy_counter counts = count_kind "organization" pd
  ∧ folder_iam_policy_counter counts = count_kind "folder" pd
  ∧ project_iam_policy_counter counts = count_kind "project" pd
  ∧ bucket_iam_policy_counter counts = count_kind "bucket" pd
  ∧ org_iam_policy_counter counts + folder_iam_policy_counter counts
    + project_iam_policy_counter counts + bucket_iam_policy_counter counts
    = length pd.
Proof.
  simpl.
  apply (retrieved_ind (λ ps acc,
    org_iam_policy_counter acc.2 = count_kind "organization" (policy_data acc.1)
    ∧ folder_iam_policy_counter acc.2 = count_kind "folder" (policy_data acc.1)
    ∧ project_iam_policy_counter acc.2
      = count_kind "project" (policy_data acc.1)
    ∧ bucket_iam_policy_counter acc.2 = count_kind "bucket" (policy_data acc.1)
    ∧ org_iam_policy_counter acc.2 + folder_iam_policy_counter acc.2
      + project_iam_policy_counter acc.2 + bucket_iam_policy_counter acc.2
      = length (policy_data acc.1))); [done |].
  clear ps. intros ps acc p (Ho & Hf & Hp & Hb & Hsum).
  destruct (decide (supported p)) as [Hs|Hs];
    [|by rewrite retrieve_policy_unsupported].
  rewrite retrieve_policy_supported by done. simpl.
  rewrite !count_kind_snoc, length_app. simpl.
  unfold retrieve_policy.
  rewrite bool_decide_eq_false_2 by (by intros H; apply H).
  unfold supported, supported_iam_types in Hs.
  destruct p as [[ty nm fn] d]. simpl in *.
  repeat (apply elem_of_cons in Hs as [->|Hs]; [simpl; lia |]).
  by apply elem_of_nil in Hs.
Qed.

End RetrieveFacts.


(** X9: retrieval keeps the policies of the supported kinds, in the order of
    the data access, and drops the others; the resource of every tuple has
    the kind, the name and the full name of the parent of its policy, and
    the data of the policy. *)
Theorem X9_retrieval_keeps_supported_policies
    (create_bindings : string → list IamPolicyBinding)
    (policies : list DataModel.policy_t) :
  policy <$> policy_data (retrieved create_bindings policies).1
  = filter supported policies
  ∧ resource <$> policy_data (retrieved create_bindings policies).1
    = resource_of <$> filter supported policies.
Proof. apply retrieved_policies. Qed.

(** X10: each of the four counters of [_retrieve] is the number of tuples of
    its kind, and together they count every tuple of [policy_data]. *)
Theorem X10_resource_counts_agree
    (create_bindings : string → list IamPolicyBinding)
    (policies : list DataModel.policy_t) :
  let pd := policy_data (retrieved create_bindings policies).1 in
  let counts := (retrieved create_bindings policies).2 in
  org_iam_policy_counter counts = count_kind "organization" pd
  ∧ folder_iam_policy_counter counts = count_kind "folder" pd
  ∧ project_iam_policy_counter counts = count_kind "project" pd
  ∧ bucket_iam_policy_counter counts = count_kind "bucket" pd
  ∧ org_iam_policy_counter counts + folder_iam_policy_counter counts
    + project_iam_policy_counter counts + bucket_iam_policy_counter counts
    = length pd.
Proof. apply retrieved_counts. Qed.

(** X11: in the store that retrieval builds, the lists of the tuples, one
    after the other, hold the addresses of the heap from the first to the
    last: every binding object is on exactly one list, once, and no list
    holds an address without an object. *)
Theorem X11_retrieved_objects_not_shared
    (create_bindings : string → list IamPolicyBinding)
    (policies : list DataModel.policy_t) :
  let st := (retrieved create_bindings policies).1 in
  mjoin (bindings <$> policy_data st) = seq 0 (length (heap st))
  ∧ NoDup (mjoin (bindings <$> policy_data st))
  ∧ ∀ t (r : ref), t ∈ policy_data st → r ∈ bindings t →
      is_Some (heap st !! r).
Proof.
  simpl. assert (Haddr := retrieved_addresses create_bindings policies).
  split_and!; [done | rewrite Haddr; apply NoDup_seq |].
  intros t r Ht Hr. apply lookup_lt_is_Some.
  assert (r ∈ seq 0 (length (heap (retrieved create_bindings policies).1)))
    as Hin.
  { rewrite <- Haddr. apply list_elem_of_join. exists (bindings t).
    split; [done |]. by apply list_elem_of_fmap_2. }
  apply elem_of_seq in Hin. lia.
Qed.

(** X12: the rules engine receives, for every retrieved tuple, the bindings
    created from the data of the policy of that tuple, and the heap holds
    the bindings of the supported policies in order. *)
Theorem X12_tuple_bindings_from_own_policy
    (create_bindings : string → list IamPolicyBinding)
    (policies : list DataModel.policy_t) (i : nat) t :
  policy_data (retrieved create_bindings policies).1 !! i = Some t →
  bindings_of (heap (retrieved create_bindings policies).1) t
  = create_bindings (DataModel.data (policy t))
  ∧ heap (retrieved create_bindings policies).1
    = filter supported policies
      ≫= λ p, create_bindings (DataModel.data p).
Proof.
  intros Ht. split; [by eapply retrieved_bindings | apply retrieved_heap].
Qed.




(** * Finding violations and the whole run *)

Section RunFacts.

Variable create_bindings : string → list IamPolicyBinding.
Variable find_policy_violations :
  Resource → DataModel.policy_t → list IamPolicyBinding → list RuleViolation.t.

Lemma find_violations_loop_spec h pd all_violations tr :
  find_violations_loop find_policy_violations h pd all_violations tr
  = (Returned (all_violations ++ engine_results find_policy_violations h pd),
     tr ++ engine_events h pd).
Proof.
  revert all_violations tr.
  induction pd as [|t pd IH]; intros all_violations tr.
  - unfold engine_results, engine_events. simpl.
    by rewrite !(right_id_L [] (++)).
  - simpl. unfold scan_bind, emit. rewrite IH.
    unfold engine_results, engine_events, bindings_of. simpl.
    by rewrite <- !(assoc_L (++)).
Qed.

Lemma find_violations_spec st tr :
  _find_violations find_policy_violations st tr
  = (Returned (engine_results find_policy_violations (heap st) (policy_data st)),
     tr ++ LogInfo "Finding IAM policy violations..."
        :: engine_events (heap st) (policy_data st)).
Proof.
  unfold _find_violations, scan_bind, emit.
  rewrite find_violations_loop_spec. simpl.
  by rewrite <- (assoc_L (++)).
Qed.


End RunFacts.

(** The tuple that retrieval builds for a single project policy whose data
    yields one binding. *)
Lemma X12_tuple_bindings_from_own_policy_witness :
  bindings_of
    (heap (retrieved (λ _, [Sample.admin {[Sample.alice]}])
                     [Sample.record_of "project" "o/p/"]).1)
    {| resource := resource_of (Sample.record_of "project" "o/p/");
       policy := Sample.record_of "project" "o/p/";
       bindings := [0] |}
  = [Sample.admin {[Sample.alice]}].
Proof.
  exact (proj1 (X12_tuple_bindings_from_own_policy
                  (λ _, [Sample.admin {[Sample.alice]}])
                  [Sample.record_of "project" "o/p/"] 0
                  {| resource := resource_of (Sample.record_of "project" "o/p/");
                     policy := Sample.record_of "project" "o/p/";
                     bindings := [0] |}
                  eq_refl)).
Defined.


(** X14: [_find_violations] logs one line, then calls the rules engine once
    for every tuple, in the order of [policy_data] and with the current
    bindings of the tuple, and returns the violations of all the calls in
    that order; it never leaves through [sys.exit]. *)
Theorem X14_find_violations_in_order
    (find_policy_violations :
       Resource → DataModel.policy_t → list IamPolicyBinding
       → list RuleViolation.t)
    (st : Store) (tr : list Event) :
  _find_violations find_policy_violations st tr
  = (Returned (engine_results find_policy_violations
                              (heap st) (policy_data st)),
     tr ++ LogInfo "Finding IAM policy violations..."
        :: engine_events (heap st) (policy_data st)).
Proof. apply find_violations_spec. Qed.



(** * Further properties of the flattener *)

Lemma flatten_members_nil_iff v ms : flatten_members v ms = [] ↔ ms = [].
Proof. by destruct ms. Qed.

(** X16: flattening a concatenation of violation lists gives the
    concatenation of the flattened lists, and the flattener yields nothing
    exactly when no violation has a member. *)
Theorem X16_flatten_composes :
  (∀ vs1 vs2,
      _flatten_violations (vs1 ++ vs2)
      = _flatten_violations vs1 ++ _flatten_violations vs2)
  ∧ (∀ vs,
        _flatten_violations vs = []
        ↔ Forall (λ v, RuleViolation.members v = []) vs).
Proof.
  split; [apply flatten_violations_app |].
  induction vs as [|v vs IH]; simpl.
  - split; [by constructor | done].
  - rewrite Forall_cons, <- IH, <- (flatten_members_nil_iff v).
    split.
    + by intros [? ?]%app_eq_nil.
    + by intros [-> ->].
Qed.

Lemma count_char_cons_zero c a s :
  PyStr.count_char c (String a s) = 0 →
  a ≠ c ∧ PyStr.count_char c s = 0.
Proof.
  simpl. destruct (Ascii.eqb_spec a c) as [->|Hne]; [lia |].
  intros H. split; [done | lia].
Qed.

(** The string of a member determines its type and name, for types without
    a colon. *)
Lemma format_colon_inj (ty1 nm1 ty2 nm2 : string) :
  PyStr.count_char colon ty1 = 0 →
  PyStr.count_char colon ty2 = 0 →
  PyStr.format_colon ty1 nm1 = PyStr.format_colon ty2 nm2 →
  ty1 = ty2 ∧ nm1 = nm2.
Proof.
  unfold PyStr.format_colon. revert ty2.
  induction ty1 as [|a ty1 IH]; intros [|c ty2] H1 H2;
    rewrite ?PyStrFacts.app_cons, ?PyStrFacts.app_nil.
  - by intros [= ->].
  - intros [= <- _]. apply count_char_cons_zero in H2 as [Hne _]. done.
  - intros [= -> _]. apply count_char_cons_zero in H1 as [Hne _]. done.
  - intros [= -> Hrest].
    apply count_char_cons_zero in H1 as [_ H1].
    apply count_char_cons_zero in H2 as [_ H2].
    destruct (IH ty2 H1 H2 Hrest) as [-> ->]. done.
Qed.

(** X17: for member types without a colon, two members of a violation give
    the same record only when they are the same member: the colon-joined
    string tells the type and the name apart. *)
Theorem X17_member_string_unambiguous (v : RuleViolation.t) (m1 m2 : Member) :
  PyStr.count_char colon (IamPolicyMember.type m1) = 0 →
  PyStr.count_char colon (IamPolicyMember.type m2) = 0 →
  flatten_member v m1 = flatten_member v m2 →
  m1 = m2.
Proof.
  intros H1 H2 Heq.
  assert (Hm := f_equal (λ rec : Flat.t,
                           Flat.vd_member (Flat.violation_data rec)) Heq).
  simpl in Hm. apply format_colon_inj in Hm as [Ht Hn]; [|done..].
  destruct m1, m2. simpl in *. by subst.
Qed.

Lemma X17_member_string_unambiguous_witness :
  (flatten_member (Sample.violation []) Sample.alice
   = flatten_member (Sample.violation []) Sample.alice)
  ∧ Sample.alice = Sample.alice.
Proof.
  split; [reflexivity |].
  exact (X17_member_string_unambiguous (Sample.violation [])
           Sample.alice Sample.alice eq_refl eq_refl eq_refl).
Defined.

(** * Addresses stay valid *)

(** X18: when every address on a list of the store has a binding object, the
    same holds after the resolver: the rules engine then receives as many
    bindings for a tuple as the list of the tuple has entries. *)
Theorem X18_addresses_stay_valid st :
  (∀ (i : nat) (r : ref), r ∈ bindings_at st i → is_Some (heap st !! r)) →
  (∀ (i : nat) (r : ref),
      r ∈ bindings_at (_add_bucket_ancestor_bindings st) i →
      is_Some (heap (_add_bucket_ancestor_bindings st) !! r))
  ∧ ∀ i : nat,
      length (tuple_bindings (_add_bucket_ancestor_bindings st) i)
      = length (bindings_at (_add_bucket_ancestor_bindings st) i).
Proof.
  intros Hvalid.
  assert (∀ (i : nat) (r : ref),
             r ∈ bindings_at (_add_bucket_ancestor_bindings st) i →
             is_Some (heap (_add_bucket_ancestor_bindings st) !! r)) as Hres.
  { apply (resolver_invariant st
             (λ s, ∀ (i : nat) (r : ref),
                     r ∈ bindings_at s i → is_Some (heap s !! r)));
      [|done].
    intros s bi r0 _ Hs i r.
    destruct (add_ancestor_binding_cases bi s r0)
      as [-> | [(ab & r' & _ & _ & _ & _ & ->)
               | (ab & Hr0 & _ & _ & _ & ->)]]; [apply Hs | |].
    - intros Hin. simpl. apply lookup_lt_is_Some. rewrite length_alter.
      apply lookup_lt_is_Some. by apply (Hs i).
    - rewrite bindings_at_append. simpl. case_decide; [|apply Hs].
      intros [Hin | ->%list_elem_of_singleton]%elem_of_app;
        [by apply (Hs i) | by rewrite Hr0]. }
  split; [done |]. intros i. unfold tuple_bindings.
  specialize (Hres i). revert Hres.
  generalize (bindings_at (_add_bucket_ancestor_bindings st) i).
  generalize (heap (_add_bucket_ancestor_bindings st)).
  intros h l Hl. induction l as [|r l IH]; [done |].
  destruct (Hl r) as [b Hb]; [by left |]. simpl. rewrite Hb. simpl.
  f_equal. apply IH. intros r' Hr'. apply Hl. by right.
Qed.

Lemma X18_addresses_stay_valid_witness :
  length (tuple_bindings (_add_bucket_ancestor_bindings Sample.end_to_end) 2)
  = length (bindings_at (_add_bucket_ancestor_bindings Sample.end_to_end) 2).
Proof.
  apply (X18_addresses_stay_valid Sample.end_to_end).
  intros [|[|[|i]]] r Hr; vm_compute in Hr.
  - by apply elem_of_nil in Hr.
  - apply list_elem_of_singleton in Hr as ->. by eexists.
  - apply list_elem_of_singleton in Hr as ->. by eexists.
  - by apply elem_of_nil in Hr.
Defined.
